(** * The schema printer of graphql-core-legacy, embedded and verified

    A shallow embedding of [graphql/utils/schema_printer.py]: the line
    wrapping of descriptions (a regular-expression split), the block-string
    formatter, the per-kind type formatters and the two entry points
    [print_schema] and [print_introspection_schema].

    A Python [str] is modelled as a [string], one character per code point
    (code points below 256), and [len] counts them; a Python exception is
    the [Raise] case of [result]. *)

From Stdlib Require Import ZArith Ascii String List Lia Bool DecimalString.
From stdpp Require Import gmap strings sorting.

Local Open Scope Z_scope.

(** ** Exceptions *)

Inductive exn : Set :=
  | AssertionError   (* a failed [assert] *)
  | ReError          (* [re.error]: the pattern does not compile *)
  | OverflowError    (* the repetition number of the pattern is too large *)
  | IndexError       (* a list index out of range *)
  | TypeError        (* a call of what is not callable *)
  | OtherError (cls : string).
                     (* an exception of another class, raised by a
                        description callable or by the literal-text service *)

Inductive result (A : Type) : Type :=
  | Ok (a : A)
  | Raise (e : exn).
Arguments Ok {A} a.
Arguments Raise {A} e.

Definition bind {A B : Type} (r : result A) (k : A -> result B) : result B :=
  match r with
  | Ok a => k a
  | Raise e => Raise e
  end.

Notation "x <-- r ;; k" := (bind r (fun x => k))
  (at level 100, r at next level, right associativity).

(** A comprehension whose element expression may raise: the elements are
    evaluated from left to right and the first exception ends it. *)
Fixpoint mapM_result {A B : Type} (f : A -> result B) (l : list A) : result (list B) :=
  match l with
  | [] => Ok []
  | x :: l' => y <-- f x ;; ys <-- mapM_result f l' ;; Ok (y :: ys)
  end.

(** [enumerate(l)], counting from [i]. *)
Fixpoint enumerate_from {A : Type} (i : nat) (l : list A) : list (nat * A) :=
  match l with
  | [] => []
  | x :: l' => (i, x) :: enumerate_from (S i) l'
  end.

Definition enumerate {A : Type} (l : list A) : list (nat * A) := enumerate_from 0 l.

(** ** Strings *)

Definition LF : ascii := "010"%char.
Definition TAB : ascii := "009"%char.
Definition DQUOTE : ascii := "034"%char.
Definition SPACE : ascii := " "%char.

(** The one-character strings and the block-string delimiter. *)
Definition nl : string := String LF EmptyString.
Definition quote3 : string := String DQUOTE (String DQUOTE (String DQUOTE EmptyString)).

(** [len(s)] *)
Definition len (s : string) : Z := Z.of_nat (String.length s).

(** [sep.join(l)] *)
Definition str_join (sep : string) (l : list string) : string := String.concat sep l.

(** [s[1:]] *)
Definition tail1 (s : string) : string :=
  match s with
  | EmptyString => EmptyString
  | String _ s' => s'
  end.

(** [s[:k]] and [s[k:]] *)
Fixpoint take_str (k : nat) (s : string) : string :=
  match k, s with
  | S k', String c s' => String c (take_str k' s')
  | _, _ => EmptyString
  end.

Fixpoint drop_str (k : nat) (s : string) : string :=
  match k, s with
  | S k', String _ s' => drop_str k' s'
  | _, _ => s
  end.

(** [s[-1]] of a non-empty string ([None] on the empty one). *)
Fixpoint last_char (s : string) : option ascii :=
  match s with
  | EmptyString => None
  | String c EmptyString => Some c
  | String _ s' => last_char s'
  end.

(** [s.split(LF)]: never empty, a trailing line feed gives a last empty line. *)
Fixpoint split_lines (s : string) : list string :=
  match s with
  | EmptyString => [EmptyString]
  | String c s' =>
      if Ascii.eqb c LF then EmptyString :: split_lines s'
      else match split_lines s' with
           | h :: t => String c h :: t
           | [] => [String c EmptyString]
           end
  end.

(** [str(n)] of an integer. *)
Definition str_of_Z (n : Z) : string := NilZero.string_of_int (Z.to_int n).

(** ** The regular expression of the line splitter

    [_break_lines] builds the pattern
    [((?: |^).{15,N}(?= |$))] with [N = str(max_len - 40)] and hands it to
    [re.split].  The model follows the backtracking matcher on exactly this
    pattern. *)

Module Re.

(** CPython's limit on a repetition count. *)
Definition MAXREPEAT : Z := 4294967295.

(** What the pattern text compiles to.  For [15 <= N] the braces are a
    bounded repetition of the dot.  For a negative [N] the text between
    the braces is no repetition count and the parser takes the braces and
    what they hold as literal characters after a single dot. *)
Inductive pattern : Type :=
  | Bounded (hi : Z)
  | LiteralBraces (txt : string).

Definition compile (n : Z) : result pattern :=
  if n <? 0 then Ok (LiteralBraces ("{15," +:+ str_of_Z n +:+ "}"))
  else if n <? 15 then Raise ReError
  else if MAXREPEAT <=? n then Raise OverflowError
  else Ok (Bounded n).

(** The dot: any character but a line feed. *)
Definition dot (c : ascii) : bool := negb (Ascii.eqb c LF).

(** The dollar: the end of the string, or just before a line feed that
    ends the string. *)
Definition at_end (rest : string) : bool :=
  match rest with
  | EmptyString => true
  | String c EmptyString => Ascii.eqb c LF
  | _ => false
  end.

(** The lookahead [(?= |$)] on what remains of the string. *)
Definition lookahead (rest : string) : bool :=
  match rest with
  | String c _ => Ascii.eqb c SPACE || at_end rest
  | EmptyString => true
  end.

(** The greedy [.{lo,hi}] followed by the lookahead: the number of
    characters the repetition keeps.  The longer run is tried first and
    the matcher gives characters back one at a time. *)
Fixpoint dots (lo hi : Z) (s : string) : option nat :=
  let stop := if (lo <=? 0) && lookahead s then Some 0%nat else None in
  match s with
  | String c s' =>
      if (0 <? hi) && dot c then
        match dots (lo - 1) (hi - 1) s' with
        | Some k => Some (S k)
        | None => stop
        end
      else stop
  | EmptyString => stop
  end.

(** What follows the group [(?: |^)], matched at the head of [s]. *)
Definition body (p : pattern) (s : string) : option nat :=
  match p with
  | Bounded hi => dots 15 hi s
  | LiteralBraces txt =>
      match s with
      | String c s' =>
          if dot c && String.prefix txt s'
             && lookahead (drop_str (String.length txt) s')
          then Some (S (String.length txt)) else None
      | EmptyString => None
      end
  end.

(** The whole pattern at the head of [s]; [bos] tells whether this is
    position 0 of the subject.  The alternative with the space comes
    first, the caret is tried when it fails. *)
Definition match_here (p : pattern) (bos : bool) (s : string) : option nat :=
  let caret := if bos then body p s else None in
  match s with
  | String c s' =>
      if Ascii.eqb c SPACE then
        match body p s' with
        | Some k => Some (S k)
        | None => caret
        end
      else caret
  | EmptyString => caret
  end.

(** The leftmost match in [s]: the text before it, the match, the text
    after it. *)
Fixpoint search (p : pattern) (bos : bool) (s : string)
  : option (string * string * string) :=
  match match_here p bos s with
  | Some k => Some (EmptyString, take_str k s, drop_str k s)
  | None =>
      match s with
      | EmptyString => None
      | String c s' =>
          match search p false s' with
          | Some (b, m, a) => Some (String c b, m, a)
          | None => None
          end
      end
  end.

(** [re.split] with the one capturing group around the whole pattern:
    the pieces between the matches alternate with the matches.  Every
    match takes at least one character, so a [fuel] as long as the
    subject never runs out. *)
Fixpoint split_fuel (fuel : nat) (p : pattern) (bos : bool) (s : string)
  : list string :=
  match fuel with
  | O => [s]
  | S fuel' =>
      match search p bos s with
      | None => [s]
      | Some (b, m, a) => b :: m :: split_fuel fuel' p false a
      end
  end.

Definition split (p : pattern) (s : string) : list string :=
  split_fuel (String.length s) p true s.

End Re.

(** ** Line wrapping *)

(** The loop [for idx in range(3, len(parts), 2)] over [parts[3:]]:
    [parts[idx][1:] + parts[idx + 1]]. *)
Fixpoint pair_sublines (rest : list string) : result (list string) :=
  match rest with
  | [] => Ok []
  | [_] => Raise IndexError
  | m :: a :: rest' =>
      subs <-- pair_sublines rest' ;; Ok ((tail1 m +:+ a) :: subs)
  end.

Definition _break_lines (line : string) (max_len : Z) : result (list string) :=
  if len line <? max_len + 5 then Ok [line]
  else
    line_split_re <-- Re.compile (max_len - 40) ;;
    let parts := Re.split line_split_re line in
    if (Z.of_nat (length parts) <? 4) then Ok [line]
    else
      match parts with
      | p0 :: p1 :: p2 :: rest =>
          subs <-- pair_sublines rest ;; Ok ((p0 +:+ p1 +:+ p2) :: subs)
      | _ => Raise IndexError
      end.

(** ** Quote escaping *)

(** [line.replace(q3, backslash + q3)] with [q3] the run of three double
    quotes: the occurrences are replaced from left to right, and the scan
    goes on after the three characters it has replaced. *)
Fixpoint _escape_quote (line : string) : string :=
  match line with
  | EmptyString => EmptyString
  | String c1 tl =>
      match tl with
      | String c2 (String c3 rest) =>
          if Ascii.eqb c1 DQUOTE && Ascii.eqb c2 DQUOTE && Ascii.eqb c3 DQUOTE
          then "\" +:+ quote3 +:+ _escape_quote rest
          else String c1 (_escape_quote tl)
      | _ => String c1 (_escape_quote tl)
      end
  end.

(** ** The schema model

    The classes of [graphql.type] are outside this file; the printer reads a
    handful of attributes from them, which the records below hold. *)

(** The [description] attribute: [None], a [str], a callable that returns
    the text when called, or another true object, one whose type is not
    [str] and whose call raises: a [TypeError] when it is not callable (a
    non-empty instance of a subclass of [str], a lazy string), or what the
    callable itself raises. *)
Inductive Description : Type :=
  | NoDescription
  | DescStr (s : string)
  | DescCallable (s : string)
  | DescFailing (e : exn).

(** Python truth of a description: [None] and the empty [str] are false, a
    callable or another object is true. *)
Definition truthy (d : Description) : bool :=
  match d with
  | NoDescription => false
  | DescStr s => negb (String.eqb s EmptyString)
  | DescCallable _ => true
  | DescFailing _ => true
  end.

(** The collaborators the printer imports: the printable form of a type
    reference, the literal text of a value ([print_ast(ast_from_value(v, t))],
    which returns the text or raises) and the shared default deprecation
    reason. *)
Class Externals : Type := {
  TypeRef : Type;
  type_str : TypeRef -> string;
  Value : Type;
  str_value : string -> Value;
  literal_text : Value -> option TypeRef -> result string;
  DEFAULT_DEPRECATION_REASON : string
}.

(** Attribute access, one class per attribute the printer reads. *)
Class HasName (A : Type) := name : A -> string.
Class HasDescription (A : Type) := description : A -> Description.
Class HasDeprecationReason (A : Type) := deprecation_reason : A -> option string.

Section Model.
Context `{Ext : Externals}.

Record GraphQLArgument : Type := {
  arg_type : TypeRef;
  arg_default_value : option Value;
  arg_description : Description
}.

Record GraphQLField : Type := {
  field_type : TypeRef;
  field_args : list (string * GraphQLArgument);
  field_description : Description;
  field_deprecation_reason : option string
}.

Record GraphQLEnumValue : Type := {
  value_name : string;
  value_description : Description;
  value_deprecation_reason : option string
}.

Record GraphQLScalarType : Type := {
  scalar_name : string;
  scalar_description : Description
}.

Record GraphQLInterfaceType : Type := {
  interface_name : string;
  interface_description : Description;
  interface_fields : list (string * GraphQLField)
}.

Record GraphQLObjectType : Type := {
  object_name : string;
  object_description : Description;
  object_interfaces : list GraphQLInterfaceType;
  object_fields : list (string * GraphQLField)
}.

Record GraphQLUnionType : Type := {
  union_name : string;
  union_description : Description;
  union_types : list GraphQLObjectType
}.

Record GraphQLEnumType : Type := {
  enum_name : string;
  enum_description : Description;
  enum_values : list GraphQLEnumValue
}.

(** The fields of an input object have the attributes of an argument. *)
Record GraphQLInputObjectType : Type := {
  input_name : string;
  input_description : Description;
  input_fields : list (string * GraphQLArgument)
}.

Record GraphQLDirective : Type := {
  directive_name : string;
  directive_description : Description;
  directive_args : list (string * GraphQLArgument);
  directive_locations : list string
}.

(** What [_print_type] may be handed: an instance of one of the six
    classes it tests for, or of none of them. *)
Inductive GraphQLType : Type :=
  | Scalar (t : GraphQLScalarType)
  | Object (t : GraphQLObjectType)
  | Interface (t : GraphQLInterfaceType)
  | Union (t : GraphQLUnionType)
  | Enum (t : GraphQLEnumType)
  | InputObject (t : GraphQLInputObjectType)
  | OtherType.

(** The schema through its accessors; the type map is a dict, one entry
    per type name. *)
Record GraphQLSchema : Type := {
  get_query_type : option GraphQLObjectType;
  get_mutation_type : option GraphQLObjectType;
  get_subscription_type : option GraphQLObjectType;
  get_directives : list GraphQLDirective;
  get_type_map : gmap string GraphQLType
}.

#[export] Instance argument_description : HasDescription GraphQLArgument := arg_description.
#[export] Instance field_has_description : HasDescription GraphQLField := field_description.
#[export] Instance value_has_description : HasDescription GraphQLEnumValue := value_description.
#[export] Instance scalar_has_description : HasDescription GraphQLScalarType := scalar_description.
#[export] Instance interface_has_description : HasDescription GraphQLInterfaceType := interface_description.
#[export] Instance object_has_description : HasDescription GraphQLObjectType := object_description.
#[export] Instance union_has_description : HasDescription GraphQLUnionType := union_description.
#[export] Instance enum_has_description : HasDescription GraphQLEnumType := enum_description.
#[export] Instance input_has_description : HasDescription GraphQLInputObjectType := input_description.
#[export] Instance directive_has_description : HasDescription GraphQLDirective := directive_description.

#[export] Instance value_has_name : HasName GraphQLEnumValue := value_name.
#[export] Instance scalar_has_name : HasName GraphQLScalarType := scalar_name.
#[export] Instance interface_has_name : HasName GraphQLInterfaceType := interface_name.
#[export] Instance object_has_name : HasName GraphQLObjectType := object_name.
#[export] Instance union_has_name : HasName GraphQLUnionType := union_name.
#[export] Instance enum_has_name : HasName GraphQLEnumType := enum_name.
#[export] Instance input_has_name : HasName GraphQLInputObjectType := input_name.
#[export] Instance directive_has_name : HasName GraphQLDirective := directive_name.

#[export] Instance field_has_reason : HasDeprecationReason GraphQLField := field_deprecation_reason.
#[export] Instance value_has_reason : HasDeprecationReason GraphQLEnumValue := value_deprecation_reason.

End Model.

(** Modelled from the spec: [str(t)] of a named type, defined by the type
    classes outside this file, is the type's name (the root types print as
    [query: Query], the union members as [M1 | M2]). *)
Definition str_named {A : Type} `{HasName A} (t : A) : string := name t.

(** ** Descriptions *)

Definition MAX_DESC_LEN : Z := 120.

(** The loop of [_description_lines] over the raw lines, [lines] being the
    list built so far. *)
Fixpoint description_loop (raw_lines : list string) (max_len : Z)
    (lines : list string) : result (list string) :=
  match raw_lines with
  | [] => Ok lines
  | line :: raw_lines' =>
      if String.eqb line EmptyString
      then description_loop raw_lines' max_len (lines ++ [line])
      else
        broken <-- _break_lines line max_len ;;
        description_loop raw_lines' max_len (lines ++ broken)
  end.

(** The text that is split into lines: the description when its type is
    [str], and else what calling it returns ([None] is not callable). *)
Definition description_text (description : Description) : result string :=
  match description with
  | DescStr s => Ok s
  | DescCallable s => Ok s
  | DescFailing e => Raise e
  | NoDescription => Raise TypeError
  end.

Definition _description_lines (description : Description) (max_len : Z)
    : result (list string) :=
  text <-- description_text description ;;
  let raw_lines := split_lines text in
  description_loop raw_lines max_len [].

(** [c in " \t"] for a character [c]. *)
Definition space_or_tab (c : ascii) : bool := Ascii.eqb c SPACE || Ascii.eqb c TAB.

Definition nonempty (s : string) : bool := negb (String.eqb s EmptyString).

Definition ends_with_quote (s : string) : bool :=
  match last_char s with
  | Some c => Ascii.eqb c DQUOTE
  | None => false
  end.

Definition _print_description {A : Type} `{HasDescription A}
    (definition : A) (indentation : string) (first_in_block : bool)
    : result string :=
  if negb (truthy (description definition)) then Ok EmptyString
  else
    lines <-- _description_lines (description definition)
                (MAX_DESC_LEN - len indentation) ;;
    let opening :=
      if nonempty indentation && negb first_in_block
      then nl +:+ indentation +:+ quote3
      else indentation +:+ quote3 in
    match lines with
    | [] => Raise IndexError
    | line0 :: _ =>
        if (Z.of_nat (length lines) =? 1) && (len line0 <? 70)
           && (0 <? len line0) && negb (ends_with_quote line0)
        then Ok (opening +:+ _escape_quote line0 +:+ quote3 +:+ nl)
        else
          let has_leading_space :=
            match line0 with
            | EmptyString => true
            | String c _ => space_or_tab c
            end in
          let opening := if has_leading_space then opening else opening +:+ nl in
          let body := fold_left (fun d line => d +:+ _escape_quote line) lines opening in
          Ok (body +:+ indentation +:+ quote3 +:+ nl)
    end.

(** ** The formatters *)

Section Printer.
Context `{Ext : Externals}.

Class HasArgs (A : Type) := args : A -> list (string * GraphQLArgument).
Class HasFields (A : Type) := fields : A -> list (string * GraphQLField).

#[export] Instance field_has_args : HasArgs GraphQLField := field_args.
#[export] Instance directive_has_args : HasArgs GraphQLDirective := directive_args.
#[export] Instance object_has_fields : HasFields GraphQLObjectType := object_fields.
#[export] Instance interface_has_fields : HasFields GraphQLInterfaceType := interface_fields.

Definition is_spec_directive (directive_name : string) : bool :=
  String.eqb directive_name "skip" || String.eqb directive_name "include"
  || String.eqb directive_name "deprecated".

Definition _is_introspection_type (typename : string) : bool :=
  String.prefix "__" typename.

Definition _builtin_scalars : list string :=
  ["String"; "Boolean"; "Int"; "Float"; "ID"].

Definition _is_builtin_scalar (typename : string) : bool :=
  existsb (String.eqb typename) _builtin_scalars.

Definition _is_defined_type (typename : string) : bool :=
  negb (_is_introspection_type typename) && negb (_is_builtin_scalar typename).

Definition _print_deprecated {A : Type} `{HasDeprecationReason A}
    (field_or_enum_value : A) : result string :=
  let reason := deprecation_reason field_or_enum_value in
  match reason with
  | None => Ok EmptyString
  | Some reason =>
      if String.eqb reason EmptyString
         || String.eqb reason DEFAULT_DEPRECATION_REASON
      then Ok " @deprecated"
      else
        text <-- literal_text (str_value reason) None ;;
        Ok (" @deprecated(reason: " +:+ text +:+ ")")
  end.

Definition _print_input_value (name : string) (arg : GraphQLArgument)
    : result string :=
  default_value <--
    match arg_default_value arg with
    | Some v =>
        text <-- literal_text v (Some (arg_type arg)) ;; Ok (" = " +:+ text)
    | None => Ok EmptyString
    end ;;
  Ok (name +:+ ": " +:+ type_str (arg_type arg) +:+ default_value).

(** One line of an indented block of input values: the description of the
    value, first in its block when [idx] is 0, and the value. *)
Definition described_input_value (entry : nat * (string * GraphQLArgument))
    : result string :=
  let '(idx, (arg_name, arg)) := entry in
  d <-- _print_description arg "  " (Nat.eqb idx 0) ;;
  v <-- _print_input_value arg_name arg ;;
  Ok (d +:+ "  " +:+ v).

Definition _print_args {A : Type} `{HasArgs A} (field_or_directives : A)
    : result string :=
  let args := args field_or_directives in
  match args with
  | [] => Ok EmptyString
  | _ =>
      if forallb (fun a => negb (truthy (description (snd a)))) args
      then
        values <-- mapM_result (fun a => _print_input_value (fst a) (snd a)) args ;;
        Ok ("(" +:+ str_join ", " values +:+ ")")
      else
        lines <-- mapM_result described_input_value (enumerate args) ;;
        Ok ("(" +:+ nl +:+ str_join nl lines +:+ nl +:+ ")")
  end.

(** One line of [_print_fields]: the element of its generator expression
    for the field at position [idx]. *)
Definition print_field (entry : nat * (string * GraphQLField)) : result string :=
  let '(idx, (f_name, f)) := entry in
  d <-- _print_description f "  " (Nat.eqb idx 0) ;;
  a <-- _print_args f ;;
  deprecated <-- _print_deprecated f ;;
  Ok (d +:+ "  " +:+ f_name +:+ a +:+ ": " +:+ type_str (field_type f)
      +:+ deprecated).

Definition _print_fields {A : Type} `{HasFields A} (type : A) : result string :=
  lines <-- mapM_result print_field (enumerate (fields type)) ;;
  Ok (str_join nl lines).

Definition _print_scalar (type : GraphQLScalarType) : result string :=
  d <-- _print_description type EmptyString true ;;
  Ok (d +:+ "scalar " +:+ name type).

Definition _print_object (type : GraphQLObjectType) : result string :=
  let interfaces := object_interfaces type in
  let implemented_interfaces :=
    match interfaces with
    | [] => EmptyString
    | _ => " implements " +:+ str_join ", " (map name interfaces)
    end in
  d <-- _print_description type EmptyString true ;;
  f <-- _print_fields type ;;
  Ok (d +:+ "type " +:+ name type +:+ implemented_interfaces +:+ " {" +:+ nl
      +:+ f +:+ nl +:+ "}").

Definition _print_interface (type : GraphQLInterfaceType) : result string :=
  d <-- _print_description type EmptyString true ;;
  f <-- _print_fields type ;;
  Ok (d +:+ "interface " +:+ name type +:+ " {" +:+ nl +:+ f +:+ nl +:+ "}").

Definition _print_union (type : GraphQLUnionType) : result string :=
  d <-- _print_description type EmptyString true ;;
  Ok (d +:+ "union " +:+ name type +:+ " = "
      +:+ str_join " | " (map str_named (union_types type))).

(** One line of [_print_enum]: the element of its generator expression
    for the value at position [idx]. *)
Definition print_enum_value (entry : nat * GraphQLEnumValue) : result string :=
  let '(idx, v) := entry in
  d <-- _print_description v "  " (Nat.eqb idx 0) ;;
  deprecated <-- _print_deprecated v ;;
  Ok (d +:+ "  " +:+ name v +:+ deprecated).

Definition _print_enum (type : GraphQLEnumType) : result string :=
  values <-- mapM_result print_enum_value (enumerate (enum_values type)) ;;
  let enum_values_str := str_join nl values in
  d <-- _print_description type EmptyString true ;;
  Ok (d +:+ "enum " +:+ name type +:+ " {" +:+ nl +:+ enum_values_str +:+ nl +:+ "}").

Definition _print_input_object (type : GraphQLInputObjectType) : result string :=
  lines <-- mapM_result described_input_value (enumerate (input_fields type)) ;;
  let fields_str := str_join nl lines in
  d <-- _print_description type EmptyString true ;;
  Ok (d +:+ "input " +:+ name type +:+ " {" +:+ nl +:+ fields_str +:+ nl +:+ "}").

Definition _print_directive (directive : GraphQLDirective) : result string :=
  d <-- _print_description directive EmptyString true ;;
  a <-- _print_args directive ;;
  Ok (d +:+ "directive @" +:+ name directive +:+ a +:+ " on "
      +:+ str_join " | " (directive_locations directive)).

(** The chain of [isinstance] tests; the [assert] guards the last call. *)
Definition _print_type (type : GraphQLType) : result string :=
  match type with
  | Scalar t => _print_scalar t
  | Object t => _print_object t
  | Interface t => _print_interface t
  | Union t => _print_union t
  | Enum t => _print_enum t
  | InputObject t => _print_input_object t
  | OtherType => Raise AssertionError
  end.

(** The lines of the operation types, appended in this order. *)
Definition operation_types (schema : GraphQLSchema) : list string :=
  let operation_types := [] in
  let operation_types :=
    match get_query_type schema with
    | Some query_type => operation_types ++ ["  query: " +:+ str_named query_type]
    | None => operation_types
    end in
  let operation_types :=
    match get_mutation_type schema with
    | Some mutation_type =>
        operation_types ++ ["  mutation: " +:+ str_named mutation_type]
    | None => operation_types
    end in
  match get_subscription_type schema with
  | Some subscription_type =>
      operation_types ++ ["  subscription: " +:+ str_named subscription_type]
  | None => operation_types
  end.

Definition _print_schema_definition (schema : GraphQLSchema) : string :=
  "schema {" +:+ nl +:+ str_join nl (operation_types schema) +:+ nl +:+ "}".

(** The order of [sorted] on the items of the type map: the pairs compare
    by their names first, and no two items of a dict share a name. *)
Definition item_le (a b : string * GraphQLType) : Prop :=
  String.le (fst a) (fst b).

#[export] Instance item_le_dec (a b : string * GraphQLType) : Decision (item_le a b).
Proof. unfold item_le. apply _. Defined.

(** [sorted(schema.get_type_map().items())] *)
Definition sorted_items (schema : GraphQLSchema) : list (string * GraphQLType) :=
  merge_sort item_le (map_to_list (get_type_map schema)).

Definition _print_filtered_schema (schema : GraphQLSchema)
    (directive_filter type_filter : string -> bool) : result string :=
  let schema_definition := [_print_schema_definition schema] in
  directives <--
    mapM_result _print_directive
      (filter (fun directive => directive_filter (name directive) = true)
              (get_directives schema)) ;;
  types <--
    mapM_result (fun item => _print_type (snd item))
      (filter (fun item => type_filter (fst item) = true) (sorted_items schema)) ;;
  Ok (str_join (nl +:+ nl) (schema_definition ++ directives ++ types) +:+ nl).

Definition print_schema (schema : GraphQLSchema) : result string :=
  _print_filtered_schema schema (fun n => negb (is_spec_directive n)) _is_defined_type.

Definition print_introspection_schema (schema : GraphQLSchema) : result string :=
  _print_filtered_schema schema is_spec_directive _is_introspection_type.

End Printer.

(** * Specification predicates *)

(** ** The splitter *)

(** Every character of [t] is matched by the dot. *)
Fixpoint all_dots (t : string) : bool :=
  match t with
  | EmptyString => true
  | String c t' => Re.dot c && all_dots t'
  end.

(** A break the bounded pattern may take: [t] is what the repetition keeps,
    [after] what follows it in the line. *)
Definition break_ok (hi : Z) (t after : string) : Prop :=
  15 <= len t <= hi /\ all_dots t = true /\ Re.lookahead after = true.

(** The pieces of a split alternate with the matches; each match starts with
    the space it breaks at, or (the first one only) at position 0. *)
Fixpoint matches_ok (hi : Z) (bos : bool) (parts : list string) : Prop :=
  match parts with
  | b :: m :: rest =>
      ((exists t, m = String SPACE t /\ break_ok hi t (str_join EmptyString rest))
       \/ (bos = true /\ b = EmptyString /\ break_ok hi m (str_join EmptyString rest)))
      /\ matches_ok hi false rest
  | _ => True
  end.

(** How the sublines after the first are made: the parts are taken two at
    a time, a match and the piece after it, and the space the match starts
    with is dropped. *)
Inductive paired : list string -> list string -> Prop :=
  | paired_nil : paired [] []
  | paired_cons (t a : string) (rest subs : list string) :
      paired rest subs ->
      paired (String SPACE t :: a :: rest) ((t +:+ a) :: subs).


(** What comes before the opening quotes of a block string: the
    indentation, after a line break when the definition is indented and not
    the first of its block. *)
Definition block_prefix (indentation : string) (first_in_block : bool) : string :=
  if nonempty indentation && negb first_in_block
  then nl +:+ indentation else indentation.

(** [needle in hay] for two strings. *)
Fixpoint contains (needle hay : string) : bool :=
  match hay with
  | EmptyString => String.prefix needle hay
  | String _ hay' => String.prefix needle hay || contains needle hay'
  end.

(** Two double quotes, and the escaped form of three. *)
Definition quote2 : string := String DQUOTE (String DQUOTE EmptyString).
Definition escaped_quote3 : string := "\" +:+ quote3.

(** The lines of the root operation types the schema has. *)
Definition root_line `{Externals} (label : string) (root : option GraphQLObjectType)
    : list string :=
  match root with
  | Some t => ["  " +:+ label +:+ ": " +:+ name t]
  | None => []
  end.

(** ** Inputs on which the collaborators return *)

(** A description the formatter can read: anything but an object whose
    call raises. *)
Definition readable (d : Description) : bool :=
  match d with
  | DescFailing _ => false
  | _ => true
  end.

(** The literal-text service returns a text on every value. *)
Definition service_returns `{Externals} : Prop :=
  forall v t, exists text, literal_text v t = Ok text.

Definition args_readable `{Externals} (l : list (string * GraphQLArgument)) : bool :=
  forallb (fun a => readable (description (snd a))) l.

Definition fields_readable `{Externals} (l : list (string * GraphQLField)) : bool :=
  forallb (fun f => readable (description (snd f)) && args_readable (field_args (snd f))) l.

Definition directive_readable `{Externals} (d : GraphQLDirective) : bool :=
  readable (description d) && args_readable (directive_args d).

(** Every description of the type, of its fields, values and arguments can
    be read. *)
Definition type_readable `{Externals} (type : GraphQLType) : bool :=
  match type with
  | Scalar t => readable (description t)
  | Object t => readable (description t) && fields_readable (object_fields t)
  | Interface t => readable (description t) && fields_readable (interface_fields t)
  | Union t => readable (description t)
  | Enum t =>
      readable (description t)
      && forallb (fun v => readable (description v)) (enum_values t)
  | InputObject t => readable (description t) && args_readable (input_fields t)
  | OtherType => true
  end.

(** ** A sample instance of the collaborators *)

Module Sample.

(** Modelled from the spec: the literal-text service on a [str] value, a
    string literal in double quotes with the quotes and backslashes of the
    text escaped by a backslash. *)
Fixpoint escape_literal (s : string) : string :=
  match s with
  | EmptyString => EmptyString
  | String c s' =>
      if Ascii.eqb c DQUOTE || Ascii.eqb c "\"%char
      then String "\"%char (String c (escape_literal s'))
      else String c (escape_literal s')
  end.

Definition string_literal (s : string) : string :=
  String DQUOTE (escape_literal s +:+ String DQUOTE EmptyString).

Definition externals : Externals := {|
  TypeRef := string;
  type_str := fun t => t;
  Value := string;
  str_value := fun s => s;
  literal_text := fun v _ => Ok (string_literal v);
  DEFAULT_DEPRECATION_REASON := "No longer supported"
|}.

#[local] Existing Instance externals.

Definition red : GraphQLEnumValue := {|
  value_name := "RED";
  value_description := DescStr "hi";
  value_deprecation_reason := None
|}.

Definition green : GraphQLEnumValue := {|
  value_name := "GREEN";
  value_description := NoDescription;
  value_deprecation_reason := Some ("a" +:+ quote3 +:+ "b")
|}.

Definition blue : GraphQLEnumValue := {|
  value_name := "BLUE";
  value_description := NoDescription;
  value_deprecation_reason := Some "No longer supported"
|}.

Definition quoted : GraphQLEnumValue := {|
  value_name := "QUOTED";
  value_description :=
    DescStr ("say " +:+ quote3 +:+ "hi" +:+ quote3 +:+ " twice");
  value_deprecation_reason := None
|}.

Definition no_roots : GraphQLSchema := {|
  get_query_type := None;
  get_mutation_type := None;
  get_subscription_type := None;
  get_directives := [];
  get_type_map := ∅
|}.

Definition hello : GraphQLField := {|
  field_type := "String";
  field_args := [];
  field_description := NoDescription;
  field_deprecation_reason := None
|}.

Definition query : GraphQLObjectType := {|
  object_name := "Query";
  object_description := NoDescription;
  object_interfaces := [];
  object_fields := [("hello", hello)]
|}.

Definition meta : GraphQLObjectType := {|
  object_name := "__Schema";
  object_description := NoDescription;
  object_interfaces := [];
  object_fields := [("description", hello)]
|}.

Definition string_scalar : GraphQLScalarType := {|
  scalar_name := "String";
  scalar_description := NoDescription
|}.

Definition color : GraphQLEnumType := {|
  enum_name := "Color";
  enum_description := NoDescription;
  enum_values := [red; blue]
|}.

Definition skip : GraphQLDirective := {|
  directive_name := "skip";
  directive_description := NoDescription;
  directive_args :=
    [("if", {| arg_type := "Boolean!"; arg_default_value := None;
               arg_description := NoDescription |})];
  directive_locations := ["FIELD"; "FRAGMENT_SPREAD"; "INLINE_FRAGMENT"]
|}.

Definition tag : GraphQLDirective := {|
  directive_name := "tag";
  directive_description := NoDescription;
  directive_args := [];
  directive_locations := ["FIELD_DEFINITION"; "OBJECT"]
|}.

Definition schema : GraphQLSchema := {|
  get_query_type := Some query;
  get_mutation_type := None;
  get_subscription_type := None;
  get_directives := [skip; tag];
  get_type_map :=
    list_to_map [("Query", Object query); ("__Schema", Object meta);
                 ("String", Scalar string_scalar); ("Color", Enum color)]
|}.

(** A line of 141 characters, longer than the printer allows. *)
Definition long_line : string :=
  "The quick brown fox jumps over the lazy dog and keeps running through the forest until it reaches the river bank where it stops to drink water".

Definition long_first : string :=
  "The quick brown fox jumps over the lazy dog and keeps running through the forest".

Definition long_second : string :=
  "until it reaches the river bank where it stops to drink water".

(** A description of three lines, the second one empty. *)
Definition three_lines : GraphQLEnumValue := {|
  value_name := "LINES";
  value_description := DescStr ("first line" +:+ nl +:+ nl +:+ "third line");
  value_deprecation_reason := None
|}.

(** A description with one line too long to stay whole. *)
Definition wordy : GraphQLEnumValue := {|
  value_name := "WORDY";
  value_description := DescStr ("Summary" +:+ nl +:+ long_line);
  value_deprecation_reason := None
|}.

(** A line of 130 characters without a space. *)
Definition unbroken : string :=
  "https://example.org/a/very/long/path/that/goes/on/and/on/without/any/space/at/all/so/that/no/break/can/be/found/in/it/whatsoever/x".

(** An indentation of 70 spaces. *)
Definition indent70 : string :=
  "                                                                      ".

Definition unknown_schema : GraphQLSchema := {|
  get_query_type := Some query;
  get_mutation_type := None;
  get_subscription_type := None;
  get_directives := [skip; tag];
  get_type_map :=
    list_to_map [("Query", Object query); ("Wrapper", OtherType);
                 ("__Hidden", OtherType)]
|}.

(** A scalar whose description is an instance of a subclass of [str]. *)
Definition lazy_scalar : GraphQLScalarType := {|
  scalar_name := "Date";
  scalar_description := DescFailing TypeError
|}.

Definition empty_object : GraphQLObjectType := {|
  object_name := "Empty";
  object_description := NoDescription;
  object_interfaces := [];
  object_fields := []
|}.

End Sample.

(** ** Counting and unescaping *)

(** [s.count(c)] for a character [c]. *)
Fixpoint count_char (c : ascii) (s : string) : nat :=
  match s with
  | EmptyString => 0%nat
  | String x s' => ((if Ascii.eqb x c then 1 else 0) + count_char c s')%nat
  end.

(** The reading of an escaped text: each backslash followed by three double
    quotes stands for the three quotes, from left to right. *)
Fixpoint unescape_quote (s : string) : string :=
  match s with
  | EmptyString => EmptyString
  | String c tl =>
      match tl with
      | String c2 (String c3 (String c4 rest)) =>
          if Ascii.eqb c "\"%char && Ascii.eqb c2 DQUOTE && Ascii.eqb c3 DQUOTE
             && Ascii.eqb c4 DQUOTE
          then quote3 +:+ unescape_quote rest
          else String c (unescape_quote tl)
      | _ => String c (unescape_quote tl)
      end
  end.

(** The directives and the items of the type map that pass the filters, in
    the order the printer takes them. *)
Definition printed_directives `{Externals} (schema : GraphQLSchema)
    (directive_filter : string -> bool) : list GraphQLDirective :=
  filter (fun directive => directive_filter (name directive) = true)
         (get_directives schema).

Definition printed_items `{Externals} (schema : GraphQLSchema)
    (type_filter : string -> bool) : list (string * GraphQLType) :=
  filter (fun item => type_filter (fst item) = true) (sorted_items schema).

(** The names of two items in strictly ascending order. *)
Definition name_lt `{Externals} (a b : string * GraphQLType) : Prop :=
  String.ltb (fst a) (fst b) = true.


(** The opening of the description of the member at position [idx] of a
    block. *)
Definition member_opening (idx : nat) : string :=
  block_prefix "  " (Nat.eqb idx 0) +:+ quote3.


(** The lines of a block follow the declared members: as many lines as
    members, and the line at position [i] is what [f] makes of the member
    declared at position [i]. *)
Definition in_order {A : Type} (f : nat * A -> result string) (l : list A)
    (lines : list string) : Prop :=
  length lines = length l
  /\ forall i x, l !! i = Some x ->
       exists line, lines !! i = Some line /\ f (i, x) = Ok line.

(** The clause of the interfaces an object type implements. *)
Definition implements_clause `{Externals} (t : GraphQLObjectType) : string :=
  match object_interfaces t with
  | [] => EmptyString
  | _ => " implements " +:+ str_join ", " (map name (object_interfaces t))
  end.

(** * Properties *)

(** ** Strings *)

Section StringFacts.

Lemma app_str_cons (x : ascii) (a b : string) :
  String x a +:+ b = String x (a +:+ b).
Proof. reflexivity. Qed.

Lemma app_str_nil_l (a : string) : EmptyString +:+ a = a.
Proof. reflexivity. Qed.

Lemma app_str_assoc (a b c : string) : (a +:+ b) +:+ c = a +:+ b +:+ c.
Proof.
  induction a as [|x a IH]; [reflexivity|].
  rewrite !app_str_cons. now f_equal.
Qed.

Lemma app_str_nil_r (a : string) : a +:+ EmptyString = a.
Proof.
  induction a as [|x a IH]; [reflexivity|].
  rewrite app_str_cons. now f_equal.
Qed.

Lemma length_app_str (a b : string) :
  String.length (a +:+ b) = (String.length a + String.length b)%nat.
Proof.
  induction a as [|x a IH]; [reflexivity|].
  rewrite app_str_cons. simpl. now f_equal.
Qed.

Lemma take_drop_str (k : nat) (s : string) : take_str k s +:+ drop_str k s = s.
Proof.
  revert s. induction k as [|k IH]; intros [|c s]; simpl; try reflexivity.
  rewrite app_str_cons. f_equal. apply IH.
Qed.

Lemma length_drop_str (k : nat) (s : string) :
  String.length (drop_str k s) = (String.length s - k)%nat.
Proof.
  revert s. induction k as [|k IH]; intros [|c s]; simpl; try reflexivity.
  apply IH.
Qed.

Lemma length_take_str (k : nat) (s : string) :
  (k <= String.length s)%nat -> String.length (take_str k s) = k.
Proof.
  revert s. induction k as [|k IH]; intros [|c s]; simpl; intros Hk;
    try reflexivity; try lia.
  rewrite IH; [reflexivity | lia].
Qed.

Lemma str_join_cons2 (sep x y : string) (l : list string) :
  str_join sep (x :: y :: l) = x +:+ sep +:+ str_join sep (y :: l).
Proof. reflexivity. Qed.

Lemma str_prefix_length (a s : string) :
  String.prefix a s = true -> (String.length a <= String.length s)%nat.
Proof.
  revert s. induction a as [|x a IH]; intros [|y s]; simpl; try lia; try discriminate.
  destruct (ascii_dec x y); [|discriminate].
  intros H. apply IH in H. lia.
Qed.

Lemma str_prefix_app (a b : string) : String.prefix a (a +:+ b) = true.
Proof.
  induction a as [|c a IH]; [now destruct b|].
  rewrite app_str_cons. cbn [String.prefix].
  destruct (ascii_dec c c); [exact IH | congruence].
Qed.

End StringFacts.

(** ** The regular expression and the split *)

Module ReFacts.
Import Re.

Lemma dots_spec (s : string) : forall lo hi k,
  dots lo hi s = Some k ->
  (k <= String.length s)%nat /\ lo <= Z.of_nat k /\ (k = 0%nat \/ Z.of_nat k <= hi)
  /\ all_dots (take_str k s) = true /\ lookahead (drop_str k s) = true.
Proof.
  induction s as [|c s IH]; intros lo hi k; cbn [dots];
    set (stop := if (lo <=? 0) && lookahead _ then Some 0%nat else None).
  all: assert (Hstop : stop = Some k ->
      lo <= Z.of_nat k /\ k = 0%nat /\ lookahead (drop_str k _) = true)
    by (subst stop; destruct (lo <=? 0) eqn:Hlo; [|discriminate];
        cbn [andb]; match goal with |- context [lookahead ?x] =>
          destruct (lookahead x) eqn:Hla end; [|discriminate];
        intros [= <-]; cbn [drop_str]; repeat split; [lia | eassumption]).
  - intros H. apply Hstop in H as (H1 & -> & H3). cbn. repeat split; auto; lia.
  - assert (Hstop' : stop = Some k ->
      (k <= String.length (String c s))%nat /\ lo <= Z.of_nat k
      /\ (k = 0%nat \/ Z.of_nat k <= hi)
      /\ all_dots (take_str k (String c s)) = true
      /\ lookahead (drop_str k (String c s)) = true).
    { intros H. apply Hstop in H as (H1 & -> & H3).
      repeat split; auto; cbn; lia. }
    destruct ((0 <? hi) && dot c) eqn:Hgo; [|exact Hstop'].
    destruct (dots (lo - 1) (hi - 1) s) as [k'|] eqn:Hrec; [|exact Hstop'].
    intros [= <-]. apply IH in Hrec as (H1 & H2 & H3 & H4 & H5).
    apply andb_prop in Hgo as [Hhi Hdot]. cbn [take_str drop_str all_dots String.length].
    rewrite Hdot, H4. repeat split; try lia; auto.
Qed.

Lemma body_bounds (p : pattern) (s : string) (k : nat) :
  body p s = Some k -> (1 <= k <= String.length s)%nat.
Proof.
  destruct p as [hi|txt]; simpl.
  - intros H. apply dots_spec in H. lia.
  - destruct s as [|c s]; [discriminate|].
    destruct (dot c && String.prefix txt s
              && lookahead (drop_str (String.length txt) s)) eqn:E; [|discriminate].
    intros [= <-]. apply andb_prop in E as [E _]. apply andb_prop in E as [_ E].
    apply str_prefix_length in E. simpl. lia.
Qed.

(** A match is one of the two alternatives of the group, followed by the
    body. *)
Lemma match_here_spec (p : pattern) (bos : bool) (s : string) (k : nat) :
  match_here p bos s = Some k ->
  (exists s' k', s = String SPACE s' /\ k = S k' /\ body p s' = Some k')
  \/ (bos = true /\ body p s = Some k).
Proof.
  unfold match_here.
  assert (Hcaret : (if bos then body p s else None) = Some k ->
                   bos = true /\ body p s = Some k).
  { destruct bos; [auto | discriminate]. }
  destruct s as [|c s]; [auto|].
  destruct (Ascii.eqb c SPACE) eqn:Hc; [|auto].
  apply Ascii.eqb_eq in Hc. subst c.
  destruct (body p s) as [k'|] eqn:Hb; [|auto].
  intros [= <-]. left. eauto.
Qed.

Lemma match_here_bounds (p : pattern) (bos : bool) (s : string) (k : nat) :
  match_here p bos s = Some k -> (1 <= k <= String.length s)%nat.
Proof.
  intros H. apply match_here_spec in H as [(s' & k' & -> & -> & H)|[_ H]];
    apply body_bounds in H; simpl; lia.
Qed.

(** What [search] finds: the three texts make up the subject, the match
    is not empty, and it is an instance of the pattern. *)
Lemma search_spec (p : pattern) (s : string) : forall bos b m a,
  search p bos s = Some (b, m, a) ->
  b +:+ m +:+ a = s
  /\ (String.length a < String.length s)%nat
  /\ ((exists t, m = String SPACE t /\ body p (t +:+ a) = Some (String.length t))
      \/ (bos = true /\ b = EmptyString /\ body p (m +:+ a) = Some (String.length m))).
Proof.
  induction s as [|c s IH]; intros bos b m a; cbn [search].
  - destruct (match_here p bos EmptyString) as [k|] eqn:Hm; [|discriminate].
    apply match_here_bounds in Hm. simpl in Hm. lia.
  - destruct (match_here p bos (String c s)) as [k|] eqn:Hm.
    + intros [= <- <- <-]. pose proof (match_here_bounds _ _ _ _ Hm) as Hk.
      rewrite app_str_nil_l, take_drop_str. split; [reflexivity|].
      split; [rewrite length_drop_str; simpl in *; lia|].
      apply match_here_spec in Hm as [(s' & k' & Hs & -> & Hb)|[-> Hb]].
      * left. injection Hs as Hc Hs. subst c s'. cbn [take_str drop_str]. exists (take_str k' s).
        split; [reflexivity|]. rewrite take_drop_str.
        apply body_bounds in Hb as Hk'. rewrite length_take_str by lia. exact Hb.
      * right. rewrite length_take_str by lia. auto.
    + destruct (search p false s) as [[[b' m'] a']|] eqn:Hs; [|discriminate].
      intros [= <- <- <-]. apply IH in Hs as (H1 & H2 & H3).
      rewrite app_str_cons, H1. split; [reflexivity|]. split; [simpl; lia|].
      destruct H3 as [H3|[H3 _]]; [left; exact H3 | discriminate].
Qed.

Lemma search_nil (p : pattern) (bos : bool) : search p bos EmptyString = None.
Proof.
  destruct (search p bos EmptyString) as [[[b m] a]|] eqn:H; [|reflexivity].
  apply search_spec in H as (_ & H & _). simpl in H. lia.
Qed.

(** The fuel of [split_fuel] never runs out when it starts at the length
    of the subject. *)
Lemma split_fuel_enough (p : pattern) : forall f1 f2 bos s,
  (String.length s <= f1)%nat -> (String.length s <= f2)%nat ->
  split_fuel f1 p bos s = split_fuel f2 p bos s.
Proof.
  induction f1 as [|f1 IH]; intros f2 bos s H1 H2.
  - destruct s; [|simpl in H1; lia].
    destruct f2; cbn [split_fuel]; [reflexivity | now rewrite search_nil].
  - destruct f2 as [|f2].
    + destruct s; [|simpl in H2; lia]. cbn [split_fuel]. now rewrite search_nil.
    + cbn [split_fuel].
      destruct (search p bos s) as [[[b m] a]|] eqn:Hs; [|reflexivity].
      apply search_spec in Hs as (_ & Hlen & _).
      do 2 f_equal. apply IH; lia.
Qed.

Lemma split_unfold (p : pattern) (s : string) :
  split p s =
  match search p true s with
  | None => [s]
  | Some (b, m, a) => b :: m :: split_fuel (String.length a) p false a
  end.
Proof.
  unfold split. destruct s as [|c s].
  - cbn [String.length split_fuel]. now rewrite search_nil.
  - cbn [String.length split_fuel].
    destruct (search p true (String c s)) as [[[b m] a]|] eqn:Hs; [|reflexivity].
    apply search_spec in Hs as (_ & Hlen & _). simpl in Hlen.
    do 2 f_equal. apply split_fuel_enough; lia.
Qed.

(** The parts of a split put together give the subject back. *)
Lemma split_fuel_concat (p : pattern) : forall fuel bos s,
  str_join EmptyString (split_fuel fuel p bos s) = s.
Proof.
  induction fuel as [|fuel IH]; intros bos s; cbn [split_fuel]; [reflexivity|].
  destruct (search p bos s) as [[[b m] a]|] eqn:Hs; [|reflexivity].
  apply search_spec in Hs as (Hcat & _ & _).
  specialize (IH false a).
  destruct (split_fuel fuel p false a) as [|a0 rest] eqn:Hrest.
  - cbn in IH. subst a. cbn. rewrite <- Hcat. now rewrite !app_str_nil_r.
  - change (b +:+ EmptyString +:+ m +:+ EmptyString +:+ str_join EmptyString (a0 :: rest) = s).
    rewrite IH. exact Hcat.
Qed.

(** After the first match, the parts pair up into sublines that a single
    space joins back into the text they were cut from. *)
Lemma split_fuel_paired (p : pattern) : forall fuel s,
  exists a0 rest subs,
    split_fuel fuel p false s = a0 :: rest
    /\ paired rest subs
    /\ pair_sublines rest = Ok subs
    /\ forall x, str_join " " ((x +:+ a0) :: subs) = x +:+ s.
Proof.
  induction fuel as [|fuel IH]; intros s; cbn [split_fuel].
  - exists s, [], []. repeat split; constructor.
  - destruct (search p false s) as [[[b m] a]|] eqn:Hs.
    + apply search_spec in Hs as (Hcat & _ & [(t & -> & _)|[Hbos _]]);
        [|discriminate].
      destruct (IH a) as (a0 & rest & subs & -> & Hp & Hsub & Hjoin).
      exists b, (String SPACE t :: a0 :: rest), ((t +:+ a0) :: subs).
      split; [reflexivity|]. split; [now constructor|].
      split; [cbn [pair_sublines]; rewrite Hsub; reflexivity|].
      intros x. rewrite str_join_cons2, Hjoin, <- Hcat.
      now rewrite !app_str_assoc.
    + exists s, [], []. repeat split; constructor.
Qed.

Lemma take_app_length (t a : string) : take_str (String.length t) (t +:+ a) = t.
Proof.
  induction t as [|c t IH]; [now destruct a|].
  rewrite app_str_cons. cbn [String.length take_str]. now f_equal.
Qed.

Lemma drop_app_length (t a : string) : drop_str (String.length t) (t +:+ a) = a.
Proof.
  induction t as [|c t IH]; [now destruct a|].
  rewrite app_str_cons. cbn [String.length drop_str]. exact IH.
Qed.

Lemma bounded_break_ok (hi : Z) (t a : string) :
  body (Bounded hi) (t +:+ a) = Some (String.length t) -> break_ok hi t a.
Proof.
  cbn [body]. intros H. apply dots_spec in H as (_ & Hlo & Hhi & Hdots & Hla).
  rewrite take_app_length in Hdots. rewrite drop_app_length in Hla.
  unfold break_ok, len. repeat split; auto; lia.
Qed.

(** Every match of the bounded pattern is a break as the pattern describes
    it. *)
Lemma split_fuel_matches_ok (hi : Z) : forall fuel bos s,
  matches_ok hi bos (split_fuel fuel (Bounded hi) bos s).
Proof.
  induction fuel as [|fuel IH]; intros bos s; cbn [split_fuel]; [exact I|].
  destruct (search (Bounded hi) bos s) as [[[b m] a]|] eqn:Hs; [|exact I].
  cbn [matches_ok]. rewrite split_fuel_concat. split; [|apply IH].
  apply search_spec in Hs as (_ & _ & [(t & -> & Hb)|(-> & -> & Hb)]).
  - left. exists t. split; [reflexivity|]. now apply bounded_break_ok.
  - right. split; [reflexivity|]. split; [reflexivity|]. now apply bounded_break_ok.
Qed.

End ReFacts.

(** ** Line wrapping *)

Section BreakLines.

(** Past the length test and the compilation of the pattern,
    [_break_lines] either keeps the line or cuts it at the breaks of the
    split. *)
Lemma break_lines_compiled (line : string) (max_len : Z) (p : Re.pattern) :
  (len line <? max_len + 5) = false ->
  Re.compile (max_len - 40) = Ok p ->
  (length (Re.split p line) < 4)%nat /\ _break_lines line max_len = Ok [line]
  \/ exists p0 p1 p2 rest subs,
       Re.split p line = p0 :: p1 :: p2 :: rest
       /\ (4 <= length (Re.split p line))%nat
       /\ paired rest subs
       /\ _break_lines line max_len = Ok ((p0 +:+ p1 +:+ p2) :: subs)
       /\ str_join " " ((p0 +:+ p1 +:+ p2) :: subs) = line.
Proof.
  intros Hlen Hc. unfold _break_lines. rewrite Hlen, Hc. cbn [bind].
  rewrite ReFacts.split_unfold.
  destruct (Re.search p true line) as [[[b m] a]|] eqn:Hs.
  - apply ReFacts.search_spec in Hs as (Hcat & _ & _).
    destruct (ReFacts.split_fuel_paired p (String.length a) a)
      as (a0 & rest & subs & -> & Hp & Hsub & Hjoin).
    destruct rest as [|r rest].
    + left. split; [simpl; lia | reflexivity].
    + right. exists b, m, a0, (r :: rest), subs.
      split; [reflexivity|]. split; [simpl; lia|]. split; [exact Hp|].
      assert (Hfour : (Z.of_nat (length (b :: m :: a0 :: r :: rest)) <? 4) = false)
        by (apply Z.ltb_ge; simpl length; lia).
      rewrite Hfour, Hsub. split; [reflexivity|].
      rewrite <- Hcat, <- (app_str_assoc b m a0), Hjoin.
      now rewrite app_str_assoc.
  - left. split; [simpl; lia | reflexivity].
Qed.

Lemma compile_ok (n : Z) :
  n < 0 \/ 15 <= n < Re.MAXREPEAT -> exists p, Re.compile n = Ok p.
Proof.
  unfold Re.compile. intros [H|H].
  - apply Z.ltb_lt in H. rewrite H. eauto.
  - destruct (n <? 0) eqn:H0; [eauto|].
    destruct (n <? 15) eqn:H1; [apply Z.ltb_lt in H1; lia|].
    destruct (Re.MAXREPEAT <=? n) eqn:H2; [apply Z.leb_le in H2; lia|eauto].
Qed.

Lemma compile_bounded (n : Z) :
  15 <= n < Re.MAXREPEAT -> Re.compile n = Ok (Re.Bounded n).
Proof.
  unfold Re.compile. intros H.
  destruct (n <? 0) eqn:H0; [apply Z.ltb_lt in H0; lia|].
  destruct (n <? 15) eqn:H1; [apply Z.ltb_lt in H1; lia|].
  destruct (Re.MAXREPEAT <=? n) eqn:H2; [apply Z.leb_le in H2; lia|reflexivity].
Qed.

(** Whenever the pattern compiles, [_break_lines] returns, and with at
    least one subline. *)
Lemma break_lines_total (line : string) (max_len : Z) :
  len line < max_len + 5 \/ max_len - 40 < 0 \/ 15 <= max_len - 40 < Re.MAXREPEAT ->
  exists sub subs, _break_lines line max_len = Ok (sub :: subs).
Proof.
  intros H. destruct (len line <? max_len + 5) eqn:Hlen.
  - unfold _break_lines. rewrite Hlen. eauto.
  - destruct H as [H|H]; [apply Z.ltb_lt in H; congruence|].
    destruct (compile_ok _ H) as [p Hp].
    destruct (break_lines_compiled line max_len p Hlen Hp)
      as [[_ ->]|(p0 & p1 & p2 & rest & subs & _ & _ & _ & -> & _)]; eauto.
Qed.

End BreakLines.

(** C4: the line-wrap routine keeps a line shorter than [max_len + 5] as it
    is; otherwise, the pattern being compiled, it keeps the line when the
    split has fewer than 4 parts, and else returns the first three parts put
    together followed by one subline per later pair of parts, the space
    that starts the pair dropped.  For a bound [max_len - 40] of at least 15
    the pattern compiles, the parts make up the line, and each match starts
    at position 0 or with a space, keeps 15 to [max_len - 40] characters and
    ends before a space or at the end of the line. *)
Theorem break_lines_cases (line : string) (max_len : Z) :
  (len line < max_len + 5 -> _break_lines line max_len = Ok [line])
  /\ (max_len + 5 <= len line ->
      forall p, Re.compile (max_len - 40) = Ok p ->
        ((length (Re.split p line) < 4)%nat -> _break_lines line max_len = Ok [line])
        /\ ((4 <= length (Re.split p line))%nat ->
            exists p0 p1 p2 rest subs,
              Re.split p line = p0 :: p1 :: p2 :: rest
              /\ paired rest subs
              /\ _break_lines line max_len = Ok ((p0 +:+ p1 +:+ p2) :: subs)))
  /\ (15 <= max_len - 40 < Re.MAXREPEAT ->
      Re.compile (max_len - 40) = Ok (Re.Bounded (max_len - 40))
      /\ str_join EmptyString (Re.split (Re.Bounded (max_len - 40)) line) = line
      /\ matches_ok (max_len - 40) true (Re.split (Re.Bounded (max_len - 40)) line)).
Proof.
  split; [|split].
  - intros H. unfold _break_lines. apply Z.ltb_lt in H. now rewrite H.
  - intros H p Hp. apply Z.ltb_ge in H.
    destruct (break_lines_compiled line max_len p H Hp)
      as [[Hlt Hres]|(p0 & p1 & p2 & rest & subs & Hparts & Hge & Hpaired & Hres & _)].
    + split; [intros _; exact Hres | lia].
    + split; [lia|]. intros _. exists p0, p1, p2, rest, subs. auto.
  - intros H. split; [now apply compile_bounded|]. split.
    + apply ReFacts.split_fuel_concat.
    + apply ReFacts.split_fuel_matches_ok.
Qed.

(** C10: the sublines [_break_lines] returns, joined by single spaces, are
    the line; and it returns whenever the line is short or the pattern
    compiles. *)
Theorem break_lines_join (line : string) (max_len : Z) :
  (forall sublines,
     _break_lines line max_len = Ok sublines -> str_join " " sublines = line)
  /\ (len line < max_len + 5 \/ max_len - 40 < 0 \/ 15 <= max_len - 40 < Re.MAXREPEAT ->
      exists sublines, _break_lines line max_len = Ok sublines).
Proof.
  split.
  - intros sublines Hres. destruct (len line <? max_len + 5) eqn:Hlen.
    + unfold _break_lines in Hres. rewrite Hlen in Hres. now injection Hres as <-.
    + destruct (Re.compile (max_len - 40)) as [p|e] eqn:Hp.
      * destruct (break_lines_compiled line max_len p Hlen Hp)
          as [[_ H]|(p0 & p1 & p2 & rest & subs & _ & _ & _ & H & Hjoin)];
          rewrite H in Hres; injection Hres as <-; [reflexivity | exact Hjoin].
      * unfold _break_lines in Hres. rewrite Hlen, Hp in Hres. discriminate.
  - intros H. destruct (break_lines_total line max_len H) as (sub & subs & Hres). eauto.
Qed.

(** ** Descriptions *)

Section DescriptionFacts.

Lemma split_lines_nonempty (s : string) : split_lines s <> [].
Proof.
  destruct s as [|c s]; cbn [split_lines]; [discriminate|].
  destruct (Ascii.eqb c LF); [discriminate|].
  destruct (split_lines s); discriminate.
Qed.

Lemma description_loop_ok (max_len : Z) :
  max_len - 40 < 0 \/ 15 <= max_len - 40 < Re.MAXREPEAT ->
  forall raw_lines acc, exists lines,
    description_loop raw_lines max_len acc = Ok (acc ++ lines)
    /\ (raw_lines <> [] -> lines <> []).
Proof.
  intros Hc. induction raw_lines as [|line raw IH]; intros acc; cbn [description_loop].
  - exists []. rewrite app_nil_r. split; [reflexivity | congruence].
  - destruct (String.eqb line EmptyString).
    + destruct (IH (acc ++ [line])) as (lines & -> & _).
      exists (line :: lines). rewrite <- app_assoc. split; [reflexivity | discriminate].
    + destruct (break_lines_total line max_len (or_intror Hc)) as (sub & subs & ->).
      cbn [bind]. destruct (IH (acc ++ sub :: subs)) as (lines & -> & _).
      exists ((sub :: subs) ++ lines). rewrite <- app_assoc.
      split; [reflexivity | discriminate].
Qed.

Lemma description_lines_ok (d : Description) (max_len : Z) :
  max_len - 40 < 0 \/ 15 <= max_len - 40 < Re.MAXREPEAT ->
  truthy d = true -> readable d = true ->
  exists line0 lines, _description_lines d max_len = Ok (line0 :: lines).
Proof.
  intros Hc Ht Hr. unfold _description_lines.
  assert (Hraw : forall s, exists line0 lines,
            description_loop (split_lines s) max_len [] = Ok (line0 :: lines)).
  { intros s. destruct (description_loop_ok max_len Hc (split_lines s) [])
      as (lines & -> & Hne).
    specialize (Hne (split_lines_nonempty s)).
    destruct lines as [|line0 lines]; [congruence | eauto]. }
  destruct d as [|s|s|e]; [discriminate | apply Hraw | apply Hraw | discriminate].
Qed.

Lemma str_join_nil_cons (x : string) (l : list string) :
  str_join EmptyString (x :: l) = x +:+ str_join EmptyString l.
Proof. destruct l; [symmetry; apply app_str_nil_r | reflexivity]. Qed.

Lemma fold_escape (lines : list string) : forall opening,
  fold_left (fun d line => d +:+ _escape_quote line) lines opening
  = opening +:+ str_join EmptyString (map _escape_quote lines).
Proof.
  induction lines as [|line lines IH]; intros opening; cbn [fold_left map].
  - symmetry. apply app_str_nil_r.
  - rewrite IH, str_join_nil_cons. apply app_str_assoc.
Qed.

(** The opening of a block string: the indentation, after a line break
    when the definition is indented and not the first of its block. *)
Lemma print_description_forms {A : Type} `{HasDescription A}
    (definition : A) (indentation : string) (first_in_block : bool)
    (lines : list string) :
  truthy (description definition) = true ->
  _description_lines (description definition) (MAX_DESC_LEN - len indentation)
    = Ok lines ->
  lines <> [] ->
  exists text,
    _print_description definition indentation first_in_block
    = Ok (block_prefix indentation first_in_block +:+ quote3 +:+ text)
    /\ ((exists line, lines = [line] /\ 0 < len line < 70
                      /\ ends_with_quote line = false
                      /\ text = _escape_quote line +:+ quote3 +:+ nl)
        \/ (~ (exists line, lines = [line] /\ 0 < len line < 70
                            /\ ends_with_quote line = false)
            /\ exists sep, (sep = EmptyString \/ sep = nl)
               /\ text = sep +:+ str_join EmptyString (map _escape_quote lines)
                         +:+ indentation +:+ quote3 +:+ nl)).
Proof.
  intros Ht Hl Hne. unfold _print_description. rewrite Ht, Hl. cbn [negb bind].
  destruct lines as [|line0 lines]; [congruence|].
  assert (Hopen :
    (if nonempty indentation && negb first_in_block
     then nl +:+ indentation +:+ quote3 else indentation +:+ quote3)
    = block_prefix indentation first_in_block +:+ quote3).
  { unfold block_prefix. destruct (nonempty indentation && negb first_in_block);
      [now rewrite app_str_assoc | reflexivity]. }
  rewrite Hopen.
  destruct ((Z.of_nat (length (line0 :: lines)) =? 1) && (len line0 <? 70)
            && (0 <? len line0) && negb (ends_with_quote line0)) eqn:Hshort.
  - apply andb_prop in Hshort as [Hshort Hq]. apply andb_prop in Hshort as [Hshort H0].
    apply andb_prop in Hshort as [H1 H70].
    apply Z.eqb_eq in H1. apply Z.ltb_lt in H70, H0. apply negb_true_iff in Hq.
    destruct lines; [|simpl in H1; lia].
    eexists. split; [now rewrite !app_str_assoc|]. left. exists line0. auto.
  - rewrite fold_escape.
    set (sep := match line0 with
                | EmptyString => true
                | String c _ => space_or_tab c
                end).
    assert (Hnot : ~ (exists line, line0 :: lines = [line] /\ 0 < len line < 70
                                   /\ ends_with_quote line = false)).
    { intros (line & [= -> ->] & [H0 H70] & Hq).
      apply Z.ltb_lt in H0, H70. cbn [length] in Hshort.
      rewrite H0, H70, Hq in Hshort. discriminate. }
    destruct sep; eexists; (split; [rewrite !app_str_assoc; reflexivity|]);
      right; (split; [exact Hnot|]).
    + exists EmptyString. split; [auto | reflexivity].
    + exists nl. split; [auto | reflexivity].
Qed.

(** With an indentation of at most 65 characters the pattern of the line
    splitter compiles, and the formatter returns on a description it can
    read. *)
Lemma print_description_total {A : Type} `{HasDescription A}
    (definition : A) (indentation : string) (first_in_block : bool) :
  len indentation <= 65 ->
  readable (description definition) = true ->
  exists text, _print_description definition indentation first_in_block = Ok text.
Proof.
  intros Hind Hr. destruct (truthy (description definition)) eqn:Ht.
  - assert (Hc : MAX_DESC_LEN - len indentation - 40 < 0
                 \/ 15 <= MAX_DESC_LEN - len indentation - 40 < Re.MAXREPEAT).
    { right. unfold MAX_DESC_LEN, Re.MAXREPEAT, len in *. lia. }
    destruct (description_lines_ok _ _ Hc Ht Hr) as (line0 & lines & Hl).
    destruct (print_description_forms definition indentation first_in_block
                (line0 :: lines) Ht Hl) as (text & -> & _); [discriminate | eauto].
  - unfold _print_description. rewrite Ht. eauto.
Qed.

End DescriptionFacts.

Section DescriptionLines.

Lemma break_lines_nonempty (line : string) (max_len : Z) (subs : list string) :
  _break_lines line max_len = Ok subs -> subs <> [].
Proof.
  unfold _break_lines. destruct (len line <? max_len + 5); [now intros [= <-]|].
  destruct (Re.compile (max_len - 40)) as [p|e]; [|discriminate]. cbn [bind].
  destruct (Z.of_nat (length (Re.split p line)) <? 4); [now intros [= <-]|].
  destruct (Re.split p line) as [|p0 [|p1 [|p2 rest]]]; try discriminate.
  destruct (pair_sublines rest); [now intros [= <-] | discriminate].
Qed.

Lemma description_loop_nonempty (max_len : Z) : forall raw_lines acc lines,
  description_loop raw_lines max_len acc = Ok lines ->
  raw_lines <> [] \/ acc <> [] -> lines <> [].
Proof.
  induction raw_lines as [|line raw IH]; intros acc lines; cbn [description_loop].
  - intros [= <-] [H|H]; congruence.
  - destruct (String.eqb line EmptyString).
    + intros Hl _. apply (IH _ _ Hl). right. now destruct acc.
    + destruct (_break_lines line max_len) as [subs|e] eqn:Hb; [|discriminate].
      cbn [bind]. intros Hl _. apply (IH _ _ Hl). right.
      apply break_lines_nonempty in Hb. destruct acc, subs; cbn; congruence.
Qed.

(** A description that is there has at least one line. *)
Lemma description_lines_nonempty (d : Description) (max_len : Z) (lines : list string) :
  truthy d = true -> _description_lines d max_len = Ok lines -> lines <> [].
Proof.
  intros Ht. unfold _description_lines.
  destruct (description_text d) as [text|e]; [|discriminate]. cbn [bind]. intros Hl.
  apply (description_loop_nonempty _ _ _ _ Hl). left. apply split_lines_nonempty.
Qed.

End DescriptionLines.

(** ** Quote escaping *)

Section EscapeFacts.

Lemma prefix_quote3 (c1 c2 c3 : ascii) (r : string) :
  String.prefix quote3 (String c1 (String c2 (String c3 r)))
  = Ascii.eqb c1 DQUOTE && Ascii.eqb c2 DQUOTE && Ascii.eqb c3 DQUOTE.
Proof.
  unfold quote3. cbn [String.prefix].
  destruct (ascii_dec DQUOTE c1) as [<-|H1].
  - destruct (ascii_dec DQUOTE c2) as [<-|H2].
    + destruct (ascii_dec DQUOTE c3) as [<-|H3]; [now destruct r|].
      symmetry. apply andb_false_intro2. apply Ascii.eqb_neq. congruence.
    + symmetry. apply andb_false_intro1, andb_false_intro2, Ascii.eqb_neq. congruence.
  - symmetry. apply andb_false_intro1, andb_false_intro1, Ascii.eqb_neq. congruence.
Qed.

Lemma escape_quote_skip (c : ascii) (tl : string) :
  String.prefix quote3 (String c tl) = false ->
  _escape_quote (String c tl) = String c (_escape_quote tl).
Proof.
  destruct tl as [|c2 [|c3 rest]]; try reflexivity.
  rewrite prefix_quote3. cbn [_escape_quote]. now intros ->.
Qed.

Lemma escape_quote_hit (b : string) :
  _escape_quote (quote3 +:+ b) = escaped_quote3 +:+ _escape_quote b.
Proof. reflexivity. Qed.

(** Whether three quotes start a text depends on its first three
    characters only. *)
Lemma prefix_quote3_app (c : ascii) (a r : string) :
  String.prefix quote3 (String c (a +:+ quote2 +:+ r))
  = String.prefix quote3 (String c (a +:+ quote2)).
Proof.
  destruct a as [|x [|y a]]; unfold quote2;
    rewrite ?app_str_cons, ?app_str_nil_l, !prefix_quote3; reflexivity.
Qed.

Lemma contains_cons (needle : string) (c : ascii) (hay : string) :
  contains needle (String c hay)
  = String.prefix needle (String c hay) || contains needle hay.
Proof. reflexivity. Qed.

(** The first run of three quotes of a text is replaced by its escaped
    form and the scan goes on behind it. *)
Lemma escape_quote_first (a b : string) :
  contains quote3 (a +:+ quote2) = false ->
  _escape_quote (a +:+ quote3 +:+ b) = a +:+ escaped_quote3 +:+ _escape_quote b.
Proof.
  induction a as [|c a IH]; intros Hno.
  - reflexivity.
  - rewrite app_str_cons, contains_cons in Hno.
    apply orb_false_elim in Hno as [Hp Hno].
    rewrite !app_str_cons, escape_quote_skip; [now rewrite IH|].
    change (quote3 +:+ b) with (quote2 +:+ String DQUOTE b).
    now rewrite prefix_quote3_app.
Qed.

(** A text without three quotes in a row is left as it is. *)
Lemma escape_quote_none (s : string) :
  contains quote3 s = false -> _escape_quote s = s.
Proof.
  induction s as [|c s IH]; [reflexivity|].
  rewrite contains_cons. intros Hno. apply orb_false_elim in Hno as [Hp Hno].
  rewrite escape_quote_skip by exact Hp. now rewrite IH.
Qed.

End EscapeFacts.

(** ** The description formatter and the deprecation annotator *)

(** C3, as amended: a description whose wrapped form is one non-empty line
    of fewer than 70 characters that does not end in a double quote comes
    out in the one-line form, the opening quotes, the escaped line, the
    closing quotes and a line break, after the indentation; when the
    indentation is not empty and the definition is not the first of its
    block, a line break comes before the indentation, as in the longer
    form. *)
Theorem description_shorthand {A : Type} `{HasDescription A}
    (definition : A) (indentation : string) (first_in_block : bool) (line : string) :
  truthy (description definition) = true ->
  _description_lines (description definition) (MAX_DESC_LEN - len indentation)
    = Ok [line] ->
  0 < len line < 70 ->
  ends_with_quote line = false ->
  _print_description definition indentation first_in_block
  = Ok ((if nonempty indentation && negb first_in_block
         then nl +:+ indentation else indentation)
        +:+ quote3 +:+ _escape_quote line +:+ quote3 +:+ nl).
Proof.
  intros Ht Hl Hlen Hq.
  destruct (print_description_forms definition indentation first_in_block [line] Ht Hl)
    as (text & -> & [(line' & [= <-] & _ & _ & ->)|[Hnot _]]); [discriminate| |].
  - reflexivity.
  - exfalso. apply Hnot. exists line. auto.
Qed.

Lemma description_shorthand_witness :
  _print_description Sample.red "  " false
  = Ok (nl +:+ "  " +:+ quote3 +:+ "hi" +:+ quote3 +:+ nl).
Proof.
  apply (description_shorthand Sample.red "  " false "hi");
    [reflexivity | reflexivity | vm_compute; split; reflexivity | reflexivity].
Defined.

(** The claim as the spec states it fails on an indented description that
    is not the first of its block: the one-line form starts with a line
    break there. *)
Lemma description_shorthand_leading_newline :
  truthy (description Sample.red) = true
  /\ _description_lines (description Sample.red) (MAX_DESC_LEN - len "  ") = Ok ["hi"]
  /\ 0 < len "hi" < 70
  /\ ends_with_quote "hi" = false
  /\ _print_description Sample.red "  " false
     <> Ok ("  " +:+ quote3 +:+ _escape_quote "hi" +:+ quote3 +:+ nl).
Proof.
  repeat split; try reflexivity. vm_compute. discriminate.
Qed.

(** C8, as amended: every line of the wrapped form of a description goes
    into the block string through [_escape_quote], in the one-line form and
    in the longer one; [_escape_quote] leaves a text without three double
    quotes in a row as it is and replaces, from the left, each run of three
    by a backslash and the three quotes.  (A deprecation reason does not go
    through [_escape_quote]: the literal-text service renders it.) *)
Theorem description_quotes_escaped {A : Type} `{HasDescription A}
    (definition : A) (indentation : string) (first_in_block : bool)
    (lines : list string) :
  truthy (description definition) = true ->
  _description_lines (description definition) (MAX_DESC_LEN - len indentation)
    = Ok lines ->
  (exists text,
     _print_description definition indentation first_in_block
     = Ok (block_prefix indentation first_in_block +:+ quote3 +:+ text)
     /\ ((exists line, lines = [line]
                       /\ text = _escape_quote line +:+ quote3 +:+ nl)
         \/ (exists sep, (sep = EmptyString \/ sep = nl)
               /\ text = sep +:+ str_join EmptyString (map _escape_quote lines)
                         +:+ indentation +:+ quote3 +:+ nl)))
  /\ (forall s, contains quote3 s = false -> _escape_quote s = s)
  /\ (forall a b, contains quote3 (a +:+ quote2) = false ->
        _escape_quote (a +:+ quote3 +:+ b)
        = a +:+ escaped_quote3 +:+ _escape_quote b).
Proof.
  intros Ht Hl. split; [|split; [exact escape_quote_none | exact escape_quote_first]].
  pose proof (description_lines_nonempty _ _ _ Ht Hl) as Hne.
  destruct (print_description_forms definition indentation first_in_block lines Ht Hl Hne)
    as (text & Hres & [(line & -> & _ & _ & ->)|[_ (sep & Hsep & ->)]]);
    eexists; (split; [exact Hres|]); [left | right]; eauto.
Qed.

Lemma description_quotes_escaped_witness :
  _print_description Sample.quoted "  " true
  = Ok ("  " +:+ quote3 +:+ "say " +:+ escaped_quote3 +:+ "hi" +:+ escaped_quote3
        +:+ " twice" +:+ quote3 +:+ nl).
Proof.
  assert (Ht : truthy (description Sample.quoted) = true) by reflexivity.
  assert (Hl : _description_lines (description Sample.quoted) (MAX_DESC_LEN - len "  ")
               = Ok ["say " +:+ quote3 +:+ "hi" +:+ quote3 +:+ " twice"])
    by reflexivity.
  destruct (description_quotes_escaped Sample.quoted "  " true _ Ht Hl)
    as [(text & Hres & Htext) (_ & Hfirst)].
  rewrite Hres. f_equal. f_equal. f_equal.
  destruct Htext as [(line & [= <-] & ->)|(sep & [-> | ->] & ->)].
  - rewrite (Hfirst "say " ("hi" +:+ quote3 +:+ " twice") eq_refl).
    rewrite (Hfirst "hi" " twice" eq_refl). reflexivity.
  - exfalso. vm_compute in Hres. discriminate.
  - exfalso. vm_compute in Hres. discriminate.
Defined.

(** The claim as the spec states it fails for a deprecation reason: the
    reason goes to the literal-text service as it is, and with a service
    that writes string literals no run of three quotes comes out escaped as
    one. *)
Lemma reason_quotes_not_escaped :
  deprecation_reason Sample.green = Some ("a" +:+ quote3 +:+ "b")
  /\ contains quote3 ("a" +:+ quote3 +:+ "b") = true
  /\ exists text,
       _print_deprecated (Ext := Sample.externals) Sample.green = Ok text
       /\ contains escaped_quote3 text = false
       /\ Ok text
          <> (escaped <-- literal_text (Externals := Sample.externals)
                           (str_value (_escape_quote ("a" +:+ quote3 +:+ "b"))) None ;;
              Ok (" @deprecated(reason: " +:+ escaped +:+ ")")).
Proof.
  split; [reflexivity|]. split; [reflexivity|].
  eexists. split; [reflexivity|]. split; [reflexivity|].
  vm_compute. discriminate.
Qed.

Section Annotations.
Context `{Ext : Externals}.

(** C7: the deprecation annotator gives the empty string when there is no
    reason, the bare directive when the reason is empty or the shared
    default, and else the directive with the literal text of the reason:
    the text the literal-text service returns for the reason goes between
    the parentheses (and what the service raises, if it raises, is
    raised). *)
Theorem print_deprecated_cases {A : Type} `{HasDeprecationReason A} (x : A) :
  (deprecation_reason x = None -> _print_deprecated x = Ok EmptyString)
  /\ (forall reason, deprecation_reason x = Some reason ->
        reason = EmptyString \/ reason = DEFAULT_DEPRECATION_REASON ->
        _print_deprecated x = Ok " @deprecated")
  /\ (forall reason, deprecation_reason x = Some reason ->
        reason <> EmptyString -> reason <> DEFAULT_DEPRECATION_REASON ->
        (forall text, literal_text (str_value reason) None = Ok text ->
           _print_deprecated x = Ok (" @deprecated(reason: " +:+ text +:+ ")"))
        /\ (forall e, literal_text (str_value reason) None = Raise e ->
              _print_deprecated x = Raise e)).
Proof.
  unfold _print_deprecated. split; [now intros ->|]. split.
  - intros reason -> [-> | ->]; [reflexivity|].
    now rewrite String.eqb_refl, orb_true_r.
  - intros reason -> Hne Hnd. apply String.eqb_neq in Hne, Hnd. split.
    + intros text Ht. now rewrite Hne, Hnd, Ht.
    + intros e He. now rewrite Hne, Hnd, He.
Qed.

(** C5: the schema definition block is the wrapper around the lines of the
    root types the schema has, query, mutation, subscription in this order;
    without a root type the wrapper is there all the same, around an empty
    line. *)
Theorem schema_definition_block (schema : GraphQLSchema) :
  _print_schema_definition schema
  = "schema {" +:+ nl
    +:+ str_join nl (root_line "query" (get_query_type schema)
                     ++ root_line "mutation" (get_mutation_type schema)
                     ++ root_line "subscription" (get_subscription_type schema))
    +:+ nl +:+ "}"
  /\ (get_query_type schema = None -> get_mutation_type schema = None ->
      get_subscription_type schema = None ->
      _print_schema_definition schema = "schema {" +:+ nl +:+ nl +:+ "}").
Proof.
  unfold _print_schema_definition, operation_types, root_line, str_named.
  split.
  - destruct (get_query_type schema), (get_mutation_type schema),
      (get_subscription_type schema); reflexivity.
  - now intros -> -> ->.
Qed.

End Annotations.

Lemma print_deprecated_cases_witness :
  _print_deprecated (Ext := Sample.externals) Sample.red = Ok EmptyString
  /\ _print_deprecated (Ext := Sample.externals) Sample.blue = Ok " @deprecated"
  /\ _print_deprecated (Ext := Sample.externals) Sample.green
     = Ok (" @deprecated(reason: " +:+ Sample.string_literal ("a" +:+ quote3 +:+ "b")
           +:+ ")").
Proof.
  split; [|split].
  - apply (proj1 (print_deprecated_cases (Ext := Sample.externals) Sample.red)).
    reflexivity.
  - apply (proj1 (proj2 (print_deprecated_cases (Ext := Sample.externals) Sample.blue))
             "No longer supported"); [reflexivity | now right].
  - apply (proj1 (proj2 (proj2 (print_deprecated_cases (Ext := Sample.externals)
                                  Sample.green))
                    ("a" +:+ quote3 +:+ "b") eq_refl
                    ltac:(discriminate) ltac:(discriminate))).
    reflexivity.
Defined.

Lemma schema_definition_block_witness :
  _print_schema_definition (Ext := Sample.externals) Sample.no_roots
  = "schema {" +:+ nl +:+ nl +:+ "}".
Proof.
  apply (proj2 (schema_definition_block (Ext := Sample.externals) Sample.no_roots));
    reflexivity.
Defined.

(** ** The formatters return *)

Section Formatters.
Context `{Ext : Externals}.

Lemma mapM_result_Forall2 {A B : Type} (f : A -> result B) (l : list A) :
  forall ys, mapM_result f l = Ok ys <-> Forall2 (fun x y => f x = Ok y) l ys.
Proof.
  induction l as [|x l IH]; intros ys; cbn [mapM_result].
  - split; [intros [= <-]; constructor | intros Hf; now inversion Hf].
  - split.
    + destruct (f x) as [y|e] eqn:Hx; [|discriminate]. cbn [bind].
      destruct (mapM_result f l) as [ys'|e] eqn:Hl; [|discriminate].
      intros [= <-]. constructor; [exact Hx | now apply IH].
    + intros Hf. inversion Hf as [|x' y l' ys' Hx Hl]; subst.
      apply IH in Hl. now rewrite Hx, Hl.
Qed.

Lemma mapM_result_total {A B : Type} (f : A -> result B) (l : list A) :
  (forall x, x ∈ l -> exists y, f x = Ok y) -> exists ys, mapM_result f l = Ok ys.
Proof.
  induction l as [|x l IH]; intros Hf; cbn [mapM_result]; [eauto|].
  destruct (Hf x) as [y ->]; [left|]. cbn [bind].
  destruct IH as [ys ->]; [intros x' Hx'; apply Hf; now right|]. eauto.
Qed.

Lemma len_indent2 : len "  " <= 65.
Proof. vm_compute. discriminate. Qed.

Lemma len_indent0 : len EmptyString <= 65.
Proof. vm_compute. discriminate. Qed.

Lemma elem_of_enumerate_from {A : Type} (l : list A) : forall k i x,
  (i, x) ∈ enumerate_from k l -> x ∈ l.
Proof.
  induction l as [|y l IH]; intros k i x Hin; cbn [enumerate_from] in Hin.
  - now apply elem_of_nil in Hin.
  - apply elem_of_cons in Hin as [[= -> ->]|Hin]; [now left | right; eauto].
Qed.

Lemma forallb_elem_of {A : Type} (f : A -> bool) (l : list A) (x : A) :
  forallb f l = true -> x ∈ l -> f x = true.
Proof.
  intros Hall Hin. apply list_elem_of_In in Hin.
  exact (proj1 (List.forallb_forall f l) Hall x Hin).
Qed.

Section Returning.
Hypothesis Hservice : service_returns.

Lemma print_deprecated_total {A : Type} `{HasDeprecationReason A} (x : A) :
  exists text, _print_deprecated x = Ok text.
Proof.
  unfold _print_deprecated. destruct (deprecation_reason x) as [reason|]; [|eauto].
  destruct (String.eqb reason EmptyString
            || String.eqb reason DEFAULT_DEPRECATION_REASON); [eauto|].
  destruct (Hservice (str_value reason) None) as [text ->]. cbn [bind]. eauto.
Qed.

Lemma print_input_value_total (name : string) (arg : GraphQLArgument) :
  exists text, _print_input_value name arg = Ok text.
Proof.
  unfold _print_input_value. destruct (arg_default_value arg) as [v|].
  - destruct (Hservice v (Some (arg_type arg))) as [text ->]. cbn [bind]. eauto.
  - cbn [bind]. eauto.
Qed.

Lemma described_input_value_total (entry : nat * (string * GraphQLArgument)) :
  readable (description (snd (snd entry))) = true ->
  exists line, described_input_value entry = Ok line.
Proof.
  destruct entry as [idx [arg_name arg]]. cbn [snd]. intros Hr.
  unfold described_input_value.
  destruct (print_description_total arg "  " (Nat.eqb idx 0) len_indent2 Hr) as [d ->].
  destruct (print_input_value_total arg_name arg) as [v ->]. cbn [bind]. eauto.
Qed.

Lemma described_input_values_total (l : list (string * GraphQLArgument)) :
  args_readable l = true ->
  exists lines, mapM_result described_input_value (enumerate l) = Ok lines.
Proof.
  intros Hr. apply mapM_result_total. intros [idx a] Hin.
  apply described_input_value_total. cbn [snd].
  apply elem_of_enumerate_from in Hin.
  exact (forallb_elem_of _ _ _ Hr Hin).
Qed.

Lemma print_args_total {A : Type} {H : @HasArgs Ext A} (x : A) :
  args_readable (args x) = true -> exists text, _print_args x = Ok text.
Proof.
  intros Hr. unfold _print_args. destruct (args x) as [|a l]; [eauto|].
  destruct (forallb _ _).
  - destruct (mapM_result_total (fun a => _print_input_value (fst a) (snd a)) (a :: l))
      as [values ->]; [intros e _; apply print_input_value_total|].
    cbn [bind]. eauto.
  - destruct (described_input_values_total (a :: l) Hr) as [lines ->].
    cbn [bind]. eauto.
Qed.

Lemma print_field_total (entry : nat * (string * GraphQLField)) :
  readable (description (snd (snd entry))) = true ->
  args_readable (field_args (snd (snd entry))) = true ->
  exists line, print_field entry = Ok line.
Proof.
  destruct entry as [idx [f_name f]]. cbn [snd]. intros Hr Ha. unfold print_field.
  destruct (print_description_total f "  " (Nat.eqb idx 0) len_indent2 Hr) as [d ->].
  destruct (print_args_total (H := field_has_args) f Ha) as [a ->].
  destruct (print_deprecated_total f) as [dep ->]. cbn [bind]. eauto.
Qed.

Lemma print_fields_total {A : Type} {H : @HasFields Ext A} (type : A) :
  fields_readable (fields type) = true -> exists text, _print_fields type = Ok text.
Proof.
  intros Hr. unfold _print_fields.
  destruct (mapM_result_total print_field (enumerate (fields type))) as [lines ->].
  - intros [idx f] Hin. apply elem_of_enumerate_from in Hin.
    pose proof (forallb_elem_of _ _ _ Hr Hin) as Hf. cbn beta in Hf.
    apply andb_prop in Hf as [Hd Ha]. now apply print_field_total.
  - cbn [bind]. eauto.
Qed.

Lemma print_enum_value_total (entry : nat * GraphQLEnumValue) :
  readable (description (snd entry)) = true ->
  exists line, print_enum_value entry = Ok line.
Proof.
  destruct entry as [idx v]. cbn [snd]. intros Hr. unfold print_enum_value.
  destruct (print_description_total v "  " (Nat.eqb idx 0) len_indent2 Hr) as [d ->].
  destruct (print_deprecated_total v) as [dep ->]. cbn [bind]. eauto.
Qed.

Lemma print_scalar_total (t : GraphQLScalarType) :
  readable (description t) = true -> exists text, _print_scalar t = Ok text.
Proof.
  intros Hr. unfold _print_scalar.
  destruct (print_description_total t EmptyString true len_indent0 Hr) as [d ->].
  cbn [bind]. eauto.
Qed.

Lemma print_object_total (t : GraphQLObjectType) :
  readable (description t) = true -> fields_readable (object_fields t) = true ->
  exists text, _print_object t = Ok text.
Proof.
  intros Hr Hf. unfold _print_object.
  destruct (print_description_total t EmptyString true len_indent0 Hr) as [d ->].
  destruct (print_fields_total (H := object_has_fields) t Hf) as [f ->]. cbn [bind]. eauto.
Qed.

Lemma print_interface_total (t : GraphQLInterfaceType) :
  readable (description t) = true -> fields_readable (interface_fields t) = true ->
  exists text, _print_interface t = Ok text.
Proof.
  intros Hr Hf. unfold _print_interface.
  destruct (print_description_total t EmptyString true len_indent0 Hr) as [d ->].
  destruct (print_fields_total (H := interface_has_fields) t Hf) as [f ->]. cbn [bind]. eauto.
Qed.

Lemma print_union_total (t : GraphQLUnionType) :
  readable (description t) = true -> exists text, _print_union t = Ok text.
Proof.
  intros Hr. unfold _print_union.
  destruct (print_description_total t EmptyString true len_indent0 Hr) as [d ->].
  cbn [bind]. eauto.
Qed.

Lemma print_enum_total (t : GraphQLEnumType) :
  readable (description t) = true ->
  forallb (fun v => readable (description v)) (enum_values t) = true ->
  exists text, _print_enum t = Ok text.
Proof.
  intros Hr Hv. unfold _print_enum.
  destruct (mapM_result_total print_enum_value (enumerate (enum_values t)))
    as [values ->].
  - intros [idx v] Hin. apply elem_of_enumerate_from in Hin.
    apply print_enum_value_total. exact (forallb_elem_of _ _ _ Hv Hin).
  - destruct (print_description_total t EmptyString true len_indent0 Hr) as [d ->].
    cbn [bind]. eauto.
Qed.

Lemma print_input_object_total (t : GraphQLInputObjectType) :
  readable (description t) = true -> args_readable (input_fields t) = true ->
  exists text, _print_input_object t = Ok text.
Proof.
  intros Hr Ha. unfold _print_input_object.
  destruct (described_input_values_total (input_fields t) Ha) as [lines ->].
  destruct (print_description_total t EmptyString true len_indent0 Hr) as [d ->].
  cbn [bind]. eauto.
Qed.

Lemma print_directive_total (d : GraphQLDirective) :
  directive_readable d = true -> exists text, _print_directive d = Ok text.
Proof.
  intros Hr. apply andb_prop in Hr as [Hd Ha]. unfold _print_directive.
  destruct (print_description_total d EmptyString true len_indent0 Hd) as [t ->].
  destruct (print_args_total (H := directive_has_args) d Ha) as [a ->]. cbn [bind]. eauto.
Qed.

Lemma print_type_total (type : GraphQLType) :
  type_readable type = true -> type <> OtherType ->
  exists text, _print_type type = Ok text.
Proof.
  destruct type as [t|t|t|t|t|t|]; cbn [_print_type type_readable]; intros Hr Hk;
    try (apply andb_prop in Hr as [Hd Hm]).
  - now apply print_scalar_total.
  - now apply print_object_total.
  - now apply print_interface_total.
  - now apply print_union_total.
  - now apply print_enum_total.
  - now apply print_input_object_total.
  - congruence.
Qed.

Lemma print_type_raise_readable (type : GraphQLType) (e : exn) :
  type_readable type = true ->
  _print_type type = Raise e -> type = OtherType /\ e = AssertionError.
Proof.
  intros Hr Hraise. destruct type;
    try (match goal with
         | |- ?ty = OtherType /\ _ =>
             destruct (print_type_total ty Hr) as [text Ht]; [discriminate | congruence]
         end).
  cbn in Hraise. split; congruence.
Qed.

End Returning.

(** C9, as amended: the dispatcher hands a type of one of the six kinds to
    the formatter of its kind and returns what that formatter returns, and
    raises the failed assertion on a type of none of them.  When every
    description of the type can be read and the literal-text service
    returns, the formatter returns a text, so that the dispatcher raises
    exactly on a type of none of the six kinds. *)
Theorem print_type_dispatch (type : GraphQLType) :
  match type with
  | Scalar t => _print_type type = _print_scalar t
  | Object t => _print_type type = _print_object t
  | Interface t => _print_type type = _print_interface t
  | Union t => _print_type type = _print_union t
  | Enum t => _print_type type = _print_enum t
  | InputObject t => _print_type type = _print_input_object t
  | OtherType => _print_type type = Raise AssertionError
  end
  /\ (service_returns -> type_readable type = true ->
      (forall e, _print_type type = Raise e <-> type = OtherType /\ e = AssertionError)
      /\ (type = OtherType \/ exists text, _print_type type = Ok text)).
Proof.
  split; [destruct type; reflexivity|].
  intros Hservice Hr. split.
  - intros e. split; [now apply print_type_raise_readable | now intros [-> ->]].
  - destruct type; try (right; apply print_type_total; [assumption.. | discriminate]).
    now left.
Qed.

End Formatters.

Lemma print_type_dispatch_witness :
  exists text, _print_type (Object Sample.query) = Ok text.
Proof.
  assert (Hs : @service_returns Sample.externals) by (intros v t; eexists; reflexivity).
  destruct (proj2 (proj2 (print_type_dispatch (Object Sample.query)) Hs eq_refl))
    as [Hk|Ht]; [discriminate | exact Ht].
Defined.

(** The claim as the spec states it fails on a scalar whose description is
    an object of a subclass of [str]: the kind is one the dispatcher knows,
    and the call raises, the formatter calling what is not callable. *)
Lemma print_type_recognised_raises :
  Scalar (Ext := Sample.externals) Sample.lazy_scalar <> OtherType
  /\ _print_type (Ext := Sample.externals) (Scalar Sample.lazy_scalar) = Raise TypeError
  /\ ~ (exists text,
          _print_type (Ext := Sample.externals) (Scalar Sample.lazy_scalar) = Ok text).
Proof.
  split; [discriminate|]. split; [reflexivity|]. intros [text Ht]. discriminate.
Qed.

(** ** The schema printer *)

Section Schema.
Context `{Ext : Externals}.

#[local] Instance item_le_transitive : Transitive item_le.
Proof. intros a b c. unfold item_le. apply transitivity. Qed.

#[local] Instance item_le_total : Total item_le.
Proof. intros a b. unfold item_le. apply total, _. Qed.

Lemma le_neq_ltb (a b : string) : String.le a b -> a <> b -> String.ltb a b = true.
Proof.
  unfold String.le, String.leb, String.ltb. intros Hle Hne.
  destruct (String.compare a b) eqn:Hc; [|reflexivity|].
  - apply String.compare_eq_iff in Hc. congruence.
  - destruct Hle.
Qed.

Lemma sorted_items_perm (schema : GraphQLSchema) :
  sorted_items schema ≡ₚ map_to_list (get_type_map schema).
Proof. apply merge_sort_Permutation. Qed.

Lemma elem_of_sorted_items (schema : GraphQLSchema) (n : string) (t : GraphQLType) :
  (n, t) ∈ sorted_items schema <-> get_type_map schema !! n = Some t.
Proof. rewrite sorted_items_perm. apply elem_of_map_to_list. Qed.

Lemma strict_of_nodup (l : list (string * GraphQLType)) :
  StronglySorted item_le l -> NoDup (l.*1) -> StronglySorted name_lt l.
Proof.
  induction 1 as [|a l Hs IH Hall]; intros Hnd; [constructor|].
  cbn in Hnd. apply NoDup_cons in Hnd as [Hnotin Hnd].
  constructor; [now apply IH|].
  rewrite Forall_forall in Hall |- *. intros b Hb.
  apply le_neq_ltb; [now apply Hall|].
  intros Heq. apply Hnotin. rewrite Heq. apply list_elem_of_fmap.
  exists b. split; [reflexivity | assumption].
Qed.

(** The items come by strictly ascending names. *)
Lemma sorted_items_strict (schema : GraphQLSchema) :
  StronglySorted name_lt (sorted_items schema).
Proof.
  apply strict_of_nodup.
  - apply StronglySorted_merge_sort; apply _.
  - rewrite sorted_items_perm. apply NoDup_fst_map_to_list.
Qed.

Lemma StronglySorted_filter {A : Type} (R : relation A) (P : A -> Prop)
    `{forall x, Decision (P x)} (l : list A) :
  StronglySorted R l -> StronglySorted R (filter P l).
Proof.
  induction 1 as [|a l Hs IH Hall]; [constructor|].
  rewrite filter_cons. destruct (decide (P a)); [|exact IH].
  constructor; [exact IH|].
  rewrite Forall_forall in Hall |- *. intros b Hb. apply Hall.
  now apply list_elem_of_filter in Hb as [_ Hb].
Qed.

Lemma printed_items_sorted (schema : GraphQLSchema) (type_filter : string -> bool) :
  StronglySorted name_lt (printed_items schema type_filter).
Proof. apply StronglySorted_filter, sorted_items_strict. Qed.

Lemma elem_of_printed_items (schema : GraphQLSchema) (type_filter : string -> bool)
    (n : string) (t : GraphQLType) :
  (n, t) ∈ printed_items schema type_filter
  <-> get_type_map schema !! n = Some t /\ type_filter n = true.
Proof.
  unfold printed_items. rewrite list_elem_of_filter, elem_of_sorted_items. cbn. tauto.
Qed.

Lemma elem_of_printed_directives (schema : GraphQLSchema)
    (directive_filter : string -> bool) (d : GraphQLDirective) :
  d ∈ printed_directives schema directive_filter
  <-> d ∈ get_directives schema /\ directive_filter (name d) = true.
Proof. unfold printed_directives. rewrite list_elem_of_filter. tauto. Qed.

(** The text of a printed schema: the schema definition, the blocks of the
    directives that pass, the blocks of the items that pass, a blank line
    between two blocks and a line break at the end. *)
Lemma print_filtered_spec (schema : GraphQLSchema)
    (directive_filter type_filter : string -> bool) (out : string) :
  _print_filtered_schema schema directive_filter type_filter = Ok out
  <-> exists dblocks tblocks,
        Forall2 (fun d b => _print_directive d = Ok b)
                (printed_directives schema directive_filter) dblocks
        /\ Forall2 (fun item b => _print_type (snd item) = Ok b)
                   (printed_items schema type_filter) tblocks
        /\ out = str_join (nl +:+ nl)
                   (_print_schema_definition schema :: dblocks ++ tblocks) +:+ nl.
Proof.
  unfold _print_filtered_schema.
  fold (printed_directives schema directive_filter).
  fold (printed_items schema type_filter). split.
  - destruct (mapM_result _print_directive _) as [dblocks|e] eqn:Hd; [|discriminate].
    cbn [bind].
    destruct (mapM_result _ (printed_items _ _)) as [tblocks|e] eqn:Ht; [|discriminate].
    cbn [bind]. intros [= <-]. exists dblocks, tblocks.
    apply mapM_result_Forall2 in Hd, Ht. auto.
  - intros (dblocks & tblocks & Hd & Ht & ->).
    apply mapM_result_Forall2 in Hd, Ht. now rewrite Hd, Ht.
Qed.

Lemma Forall2_exists_l {A B : Type} (P : A -> B -> Prop) (l : list A) (k : list B) :
  Forall2 P l k -> forall x, x ∈ l -> exists y, P x y.
Proof.
  induction 1 as [|x y l k Hxy Hlk IH]; intros x' Hin.
  - now apply elem_of_nil in Hin.
  - apply elem_of_cons in Hin as [->|Hin]; [eauto | now apply IH].
Qed.

(** The printer returns exactly when the formatter returns on every
    directive and on every item that passes the filters. *)
Lemma print_filtered_returns (schema : GraphQLSchema)
    (directive_filter type_filter : string -> bool) :
  (exists out, _print_filtered_schema schema directive_filter type_filter = Ok out)
  <-> (forall d, d ∈ printed_directives schema directive_filter ->
                 exists b, _print_directive d = Ok b)
      /\ (forall item, item ∈ printed_items schema type_filter ->
                       exists b, _print_type (snd item) = Ok b).
Proof.
  split.
  - intros [out Hout].
    apply print_filtered_spec in Hout as (dblocks & tblocks & Hd & Ht & _).
    split; [exact (Forall2_exists_l _ _ _ Hd) | exact (Forall2_exists_l _ _ _ Ht)].
  - intros [Hd Ht]. unfold _print_filtered_schema.
    fold (printed_directives schema directive_filter).
    fold (printed_items schema type_filter).
    destruct (mapM_result_total _print_directive
                (printed_directives schema directive_filter) Hd) as [dblocks ->].
    destruct (mapM_result_total (fun item => _print_type (snd item))
                (printed_items schema type_filter) Ht) as [tblocks ->].
    cbn [bind]. eauto.
Qed.

Lemma is_spec_directive_spec (n : string) :
  is_spec_directive n = true <-> n = "skip" \/ n = "include" \/ n = "deprecated".
Proof.
  unfold is_spec_directive. rewrite !orb_true_iff, !String.eqb_eq. tauto.
Qed.

Lemma is_builtin_scalar_spec (n : string) :
  _is_builtin_scalar n = true
  <-> n = "String" \/ n = "Boolean" \/ n = "Int" \/ n = "Float" \/ n = "ID".
Proof.
  unfold _is_builtin_scalar, _builtin_scalars. cbn [existsb].
  rewrite !orb_true_iff, !String.eqb_eq. intuition discriminate.
Qed.

End Schema.

(** ** The two entry points *)

Section EntryPoints.
Context `{Ext : Externals}.

(** C1: the text [print_schema] returns is the schema definition followed by
    one block per directive and per item of the type map that passes its
    filter; a directive passes exactly when it is none of skip, include and
    deprecated, an item exactly when its name does not start with two
    underscores and is none of the five builtin scalar names; and
    [print_schema] returns exactly when the formatters return on what
    passes, which they do when the literal-text service returns, the
    descriptions can be read and each item that passes is of one of the six
    kinds. *)
Theorem print_schema_filters (schema : GraphQLSchema) :
  (forall out, print_schema schema = Ok out ->
     exists dblocks tblocks,
       out = str_join (nl +:+ nl)
               (_print_schema_definition schema :: dblocks ++ tblocks) +:+ nl
       /\ Forall2 (fun d b => _print_directive d = Ok b)
            (printed_directives schema (fun n => negb (is_spec_directive n))) dblocks
       /\ Forall2 (fun item b => _print_type (snd item) = Ok b)
            (printed_items schema _is_defined_type) tblocks)
  /\ (forall d,
        d ∈ printed_directives schema (fun n => negb (is_spec_directive n))
        <-> d ∈ get_directives schema
            /\ name d <> "skip" /\ name d <> "include" /\ name d <> "deprecated")
  /\ (forall n t,
        (n, t) ∈ printed_items schema _is_defined_type
        <-> get_type_map schema !! n = Some t
            /\ String.prefix "__" n = false
            /\ n <> "String" /\ n <> "Boolean" /\ n <> "Int" /\ n <> "Float"
            /\ n <> "ID")
  /\ ((exists out, print_schema schema = Ok out)
      <-> (forall d, d ∈ printed_directives schema (fun n => negb (is_spec_directive n)) ->
                     exists b, _print_directive d = Ok b)
          /\ (forall item, item ∈ printed_items schema _is_defined_type ->
                           exists b, _print_type (snd item) = Ok b))
  /\ (service_returns ->
      (forall d, d ∈ printed_directives schema (fun n => negb (is_spec_directive n)) ->
                 directive_readable d = true) ->
      (forall n t, (n, t) ∈ printed_items schema _is_defined_type ->
                   type_readable t = true /\ t <> OtherType) ->
      exists out, print_schema schema = Ok out).
Proof.
  split; [|split; [|split; [|split]]].
  - intros out Hout. apply print_filtered_spec in Hout
      as (dblocks & tblocks & Hd & Ht & ->). eauto.
  - intros d. rewrite elem_of_printed_directives, negb_true_iff.
    rewrite <- not_true_iff_false, is_spec_directive_spec. tauto.
  - intros n t. rewrite elem_of_printed_items. unfold _is_defined_type.
    rewrite andb_true_iff, !negb_true_iff. unfold _is_introspection_type.
    rewrite <- (not_true_iff_false (_is_builtin_scalar n)), is_builtin_scalar_spec.
    tauto.
  - apply print_filtered_returns.
  - intros Hs Hd Hk. apply print_filtered_returns. split.
    + intros d Hin. apply print_directive_total; auto.
    + intros [n t] Hin. destruct (Hk n t Hin). now apply print_type_total.
Qed.

(** C6: the text [print_introspection_schema] returns is the schema
    definition followed by one block per directive and per item of the type
    map that passes its filter; a directive passes exactly when it is skip,
    include or deprecated, an item exactly when its name starts with two
    underscores; and it returns exactly when the formatters return on what
    passes, which they do when the literal-text service returns, the
    descriptions can be read and each item that passes is of one of the six
    kinds. *)
Theorem print_introspection_filters (schema : GraphQLSchema) :
  (forall out, print_introspection_schema schema = Ok out ->
     exists dblocks tblocks,
       out = str_join (nl +:+ nl)
               (_print_schema_definition schema :: dblocks ++ tblocks) +:+ nl
       /\ Forall2 (fun d b => _print_directive d = Ok b)
            (printed_directives schema is_spec_directive) dblocks
       /\ Forall2 (fun item b => _print_type (snd item) = Ok b)
            (printed_items schema _is_introspection_type) tblocks)
  /\ (forall d,
        d ∈ printed_directives schema is_spec_directive
        <-> d ∈ get_directives schema
            /\ (name d = "skip" \/ name d = "include" \/ name d = "deprecated"))
  /\ (forall n t,
        (n, t) ∈ printed_items schema _is_introspection_type
        <-> get_type_map schema !! n = Some t /\ String.prefix "__" n = true)
  /\ ((exists out, print_introspection_schema schema = Ok out)
      <-> (forall d, d ∈ printed_directives schema is_spec_directive ->
                     exists b, _print_directive d = Ok b)
          /\ (forall item, item ∈ printed_items schema _is_introspection_type ->
                           exists b, _print_type (snd item) = Ok b))
  /\ (service_returns ->
      (forall d, d ∈ printed_directives schema is_spec_directive ->
                 directive_readable d = true) ->
      (forall n t, (n, t) ∈ printed_items schema _is_introspection_type ->
                   type_readable t = true /\ t <> OtherType) ->
      exists out, print_introspection_schema schema = Ok out).
Proof.
  split; [|split; [|split; [|split]]].
  - intros out Hout. apply print_filtered_spec in Hout
      as (dblocks & tblocks & Hd & Ht & ->). eauto.
  - intros d. rewrite elem_of_printed_directives, is_spec_directive_spec. tauto.
  - intros n t. rewrite elem_of_printed_items. reflexivity.
  - apply print_filtered_returns.
  - intros Hs Hd Hk. apply print_filtered_returns. split.
    + intros d Hin. apply print_directive_total; auto.
    + intros [n t] Hin. destruct (Hk n t Hin). now apply print_type_total.
Qed.

Lemma in_order_enumerate {A : Type} (f : nat * A -> result string) (l : list A) :
  forall k lines,
    Forall2 (fun entry line => f entry = Ok line) (enumerate_from k l) lines ->
    length lines = length l
    /\ forall i x, l !! i = Some x ->
         exists line, lines !! i = Some line /\ f ((k + i)%nat, x) = Ok line.
Proof.
  induction l as [|y l IH]; intros k lines Hf; cbn [enumerate_from] in Hf.
  - inversion Hf; subst. split; [reflexivity | intros i x Hx; discriminate].
  - inversion Hf as [|e line es lines' Hy Hrest]; subst.
    destruct (IH _ _ Hrest) as [Hlen Hat]. split; [cbn; now rewrite Hlen|].
    intros [|i] x Hx; cbn in Hx.
    + injection Hx as <-. exists line. split; [reflexivity|].
      now rewrite Nat.add_0_r.
    + destruct (Hat i x Hx) as (line' & Hl & Hfx). exists line'.
      split; [exact Hl|]. now rewrite Nat.add_succ_r.
Qed.

Lemma mapM_in_order {A : Type} (f : nat * A -> result string) (l : list A)
    (lines : list string) :
  mapM_result f (enumerate l) = Ok lines -> in_order f l lines.
Proof.
  intros Hm. apply mapM_result_Forall2 in Hm.
  exact (in_order_enumerate f l 0 lines Hm).
Qed.

Lemma mapM_in_order_plain {A : Type} (g : A -> result string) (l : list A)
    (values : list string) :
  mapM_result g l = Ok values -> in_order (fun entry => g (snd entry)) l values.
Proof.
  intros Hm. apply mapM_result_Forall2 in Hm.
  induction Hm as [|x v l values Hx Hrest [Hlen Hat]].
  - split; [reflexivity | intros i x Hx; discriminate].
  - split; [cbn; now rewrite Hlen|].
    intros [|i] y Hy; cbn in Hy.
    + injection Hy as <-. exists v. split; [reflexivity | exact Hx].
    + exact (Hat i y Hy).
Qed.

Lemma print_input_value_inv (n : string) (arg : GraphQLArgument) (out : string) :
  _print_input_value n arg = Ok out ->
  exists default,
    out = n +:+ ": " +:+ type_str (arg_type arg) +:+ default
    /\ (arg_default_value arg = None /\ default = EmptyString
        \/ exists v text, arg_default_value arg = Some v
             /\ literal_text v (Some (arg_type arg)) = Ok text
             /\ default = " = " +:+ text).
Proof.
  unfold _print_input_value. destruct (arg_default_value arg) as [v|].
  - destruct (literal_text v (Some (arg_type arg))) as [text|e] eqn:Hl; [|discriminate].
    cbn [bind]. intros [= <-]. eexists. split; [reflexivity|]. right. eauto.
  - cbn [bind]. intros [= <-]. eexists. split; [reflexivity|]. now left.
Qed.

Lemma described_input_value_inv (i : nat) (n : string) (arg : GraphQLArgument)
    (line : string) :
  described_input_value (i, (n, arg)) = Ok line ->
  exists d v, _print_description arg "  " (Nat.eqb i 0) = Ok d
    /\ _print_input_value n arg = Ok v
    /\ line = d +:+ "  " +:+ v.
Proof.
  unfold described_input_value.
  destruct (_print_description arg "  " (Nat.eqb i 0)) as [d|e]; [|discriminate].
  destruct (_print_input_value n arg) as [v|e]; [|discriminate].
  cbn [bind]. intros [= <-]. eauto.
Qed.

Lemma print_args_inv {A : Type} {H : @HasArgs Ext A} (x : A) (out : string) :
  _print_args x = Ok out ->
  args x = [] /\ out = EmptyString
  \/ (exists values,
        in_order (fun entry => _print_input_value (fst (snd entry)) (snd (snd entry)))
                 (args x) values
        /\ out = "(" +:+ str_join ", " values +:+ ")")
  \/ (exists lines,
        in_order described_input_value (args x) lines
        /\ out = "(" +:+ nl +:+ str_join nl lines +:+ nl +:+ ")").
Proof.
  unfold _print_args. destruct (args x) as [|a l] eqn:Ha.
  - intros [= <-]. now left.
  - destruct (forallb _ _).
    + destruct (mapM_result _ (a :: l)) as [values|e] eqn:Hv; [|discriminate].
      cbn [bind]. intros [= <-]. right. left. exists values.
      split; [|reflexivity].
      exact (mapM_in_order_plain (fun a => _print_input_value (fst a) (snd a)) _ _ Hv).
    + destruct (mapM_result described_input_value _) as [lines|e] eqn:Hl; [|discriminate].
      cbn [bind]. intros [= <-]. right. right. exists lines.
      split; [now apply mapM_in_order | reflexivity].
Qed.

Lemma print_field_inv (i : nat) (n : string) (f : GraphQLField) (line : string) :
  print_field (i, (n, f)) = Ok line ->
  exists d a deprecated,
    _print_description f "  " (Nat.eqb i 0) = Ok d
    /\ _print_args f = Ok a
    /\ _print_deprecated f = Ok deprecated
    /\ line = d +:+ "  " +:+ n +:+ a +:+ ": " +:+ type_str (field_type f)
              +:+ deprecated.
Proof.
  unfold print_field.
  destruct (_print_description f "  " (Nat.eqb i 0)) as [d|e]; [|discriminate].
  destruct (_print_args f) as [a|e]; [|discriminate].
  destruct (_print_deprecated f) as [dep|e]; [|discriminate].
  cbn [bind]. intros [= <-]. exists d, a, dep. auto.
Qed.

Lemma print_enum_value_inv (i : nat) (v : GraphQLEnumValue) (line : string) :
  print_enum_value (i, v) = Ok line ->
  exists d deprecated,
    _print_description v "  " (Nat.eqb i 0) = Ok d
    /\ _print_deprecated v = Ok deprecated
    /\ line = d +:+ "  " +:+ name v +:+ deprecated.
Proof.
  unfold print_enum_value.
  destruct (_print_description v "  " (Nat.eqb i 0)) as [d|e]; [|discriminate].
  destruct (_print_deprecated v) as [dep|e]; [|discriminate].
  cbn [bind]. intros [= <-]. exists d, dep. auto.
Qed.

Lemma print_fields_inv {A : Type} {H : @HasFields Ext A} (type : A) (out : string) :
  _print_fields type = Ok out ->
  exists lines, in_order print_field (fields type) lines /\ out = str_join nl lines.
Proof.
  unfold _print_fields.
  destruct (mapM_result print_field _) as [lines|e] eqn:Hl; [|discriminate].
  cbn [bind]. intros [= <-]. exists lines. split; [now apply mapM_in_order | reflexivity].
Qed.

Lemma print_object_inv (t : GraphQLObjectType) (out : string) :
  _print_object t = Ok out ->
  exists d lines,
    _print_description t EmptyString true = Ok d
    /\ in_order print_field (object_fields t) lines
    /\ out = d +:+ "type " +:+ name t +:+ implements_clause t +:+ " {" +:+ nl
             +:+ str_join nl lines +:+ nl +:+ "}".
Proof.
  unfold _print_object.
  destruct (_print_description t EmptyString true) as [d|e]; [|discriminate].
  destruct (_print_fields t) as [f|e] eqn:Hf; [|discriminate].
  cbn [bind]. intros [= <-].
  apply print_fields_inv in Hf as (lines & Hl & ->). exists d, lines. auto.
Qed.

Lemma print_interface_inv (t : GraphQLInterfaceType) (out : string) :
  _print_interface t = Ok out ->
  exists d lines,
    _print_description t EmptyString true = Ok d
    /\ in_order print_field (interface_fields t) lines
    /\ out = d +:+ "interface " +:+ name t +:+ " {" +:+ nl
             +:+ str_join nl lines +:+ nl +:+ "}".
Proof.
  unfold _print_interface.
  destruct (_print_description t EmptyString true) as [d|e]; [|discriminate].
  destruct (_print_fields t) as [f|e] eqn:Hf; [|discriminate].
  cbn [bind]. intros [= <-].
  apply print_fields_inv in Hf as (lines & Hl & ->). exists d, lines. auto.
Qed.

Lemma print_enum_inv (t : GraphQLEnumType) (out : string) :
  _print_enum t = Ok out ->
  exists d lines,
    _print_description t EmptyString true = Ok d
    /\ in_order print_enum_value (enum_values t) lines
    /\ out = d +:+ "enum " +:+ name t +:+ " {" +:+ nl
             +:+ str_join nl lines +:+ nl +:+ "}".
Proof.
  unfold _print_enum.
  destruct (mapM_result print_enum_value _) as [lines|e] eqn:Hl; [|discriminate].
  destruct (_print_description t EmptyString true) as [d|e]; [|discriminate].
  cbn [bind]. intros [= <-]. exists d, lines.
  split; [reflexivity|]. split; [now apply mapM_in_order | reflexivity].
Qed.

Lemma print_input_object_inv (t : GraphQLInputObjectType) (out : string) :
  _print_input_object t = Ok out ->
  exists d lines,
    _print_description t EmptyString true = Ok d
    /\ in_order described_input_value (input_fields t) lines
    /\ out = d +:+ "input " +:+ name t +:+ " {" +:+ nl
             +:+ str_join nl lines +:+ nl +:+ "}".
Proof.
  unfold _print_input_object.
  destruct (mapM_result described_input_value _) as [lines|e] eqn:Hl; [|discriminate].
  destruct (_print_description t EmptyString true) as [d|e]; [|discriminate].
  cbn [bind]. intros [= <-]. exists d, lines.
  split; [reflexivity|]. split; [now apply mapM_in_order | reflexivity].
Qed.

Lemma print_union_inv (t : GraphQLUnionType) (out : string) :
  _print_union t = Ok out ->
  exists d, _print_description t EmptyString true = Ok d
    /\ out = d +:+ "union " +:+ name t +:+ " = "
             +:+ str_join " | " (map name (union_types t)).
Proof.
  unfold _print_union.
  destruct (_print_description t EmptyString true) as [d|e]; [|discriminate].
  cbn [bind]. intros [= <-]. eauto.
Qed.

Lemma print_scalar_inv (t : GraphQLScalarType) (out : string) :
  _print_scalar t = Ok out ->
  exists d, _print_description t EmptyString true = Ok d
    /\ out = d +:+ "scalar " +:+ name t.
Proof.
  unfold _print_scalar.
  destruct (_print_description t EmptyString true) as [d|e]; [|discriminate].
  cbn [bind]. intros [= <-]. eauto.
Qed.

Lemma print_directive_inv (d : GraphQLDirective) (out : string) :
  _print_directive d = Ok out ->
  exists desc a, _print_description d EmptyString true = Ok desc
    /\ _print_args d = Ok a
    /\ out = desc +:+ "directive @" +:+ name d +:+ a +:+ " on "
             +:+ str_join " | " (directive_locations d).
Proof.
  unfold _print_directive.
  destruct (_print_description d EmptyString true) as [desc|e]; [|discriminate].
  destruct (_print_args d) as [a|e]; [|discriminate].
  cbn [bind]. intros [= <-]. eauto.
Qed.

(** C2: for both entry points the text returned is the schema definition,
    then the blocks of the directives that pass the filter in the order the
    schema declares them, then the blocks of the items that pass by strictly
    ascending names, a blank line between two blocks and one line break at
    the end.  The block of an item is the block of its kind, and in a block
    the members come in their declared order: the line at position [i] of
    an object, interface, enum or input object is the line of the field or
    value declared at position [i], the arguments of a field or directive
    stand at their declared positions, and the members of a union and the
    locations of a directive are joined in the order of their lists. *)
Theorem printed_layout (schema : GraphQLSchema) :
  print_schema schema
  = _print_filtered_schema schema (fun n => negb (is_spec_directive n)) _is_defined_type
  /\ print_introspection_schema schema
     = _print_filtered_schema schema is_spec_directive _is_introspection_type
  /\ (forall directive_filter type_filter out,
        _print_filtered_schema schema directive_filter type_filter = Ok out ->
        exists dblocks tblocks,
          out = str_join (nl +:+ nl)
                  (_print_schema_definition schema :: dblocks ++ tblocks) +:+ nl
          /\ Forall2 (fun d b => _print_directive d = Ok b)
               (printed_directives schema directive_filter) dblocks
          /\ printed_directives schema directive_filter `sublist_of` get_directives schema
          /\ Forall2 (fun item b => _print_type (snd item) = Ok b)
               (printed_items schema type_filter) tblocks
          /\ StronglySorted name_lt (printed_items schema type_filter))
  /\ (forall type,
        match type with
        | Scalar t => _print_type type = _print_scalar t
        | Object t => _print_type type = _print_object t
        | Interface t => _print_type type = _print_interface t
        | Union t => _print_type type = _print_union t
        | Enum t => _print_type type = _print_enum t
        | InputObject t => _print_type type = _print_input_object t
        | OtherType => forall b, _print_type type <> Ok b
        end)
  /\ (forall (t : GraphQLObjectType) out, _print_object t = Ok out ->
        exists d lines,
          _print_description t EmptyString true = Ok d
          /\ in_order print_field (object_fields t) lines
          /\ out = d +:+ "type " +:+ name t +:+ implements_clause t +:+ " {" +:+ nl
                   +:+ str_join nl lines +:+ nl +:+ "}")
  /\ (forall (t : GraphQLInterfaceType) out, _print_interface t = Ok out ->
        exists d lines,
          _print_description t EmptyString true = Ok d
          /\ in_order print_field (interface_fields t) lines
          /\ out = d +:+ "interface " +:+ name t +:+ " {" +:+ nl
                   +:+ str_join nl lines +:+ nl +:+ "}")
  /\ (forall i n (f : GraphQLField) line, print_field (i, (n, f)) = Ok line ->
        exists d a deprecated,
          _print_description f "  " (Nat.eqb i 0) = Ok d
          /\ _print_args f = Ok a
          /\ _print_deprecated f = Ok deprecated
          /\ line = d +:+ "  " +:+ n +:+ a +:+ ": " +:+ type_str (field_type f)
                    +:+ deprecated)
  /\ (forall (A : Type) (H : @HasArgs Ext A) (x : A) out, _print_args x = Ok out ->
        args x = [] /\ out = EmptyString
        \/ (exists values,
              in_order (fun entry =>
                          _print_input_value (fst (snd entry)) (snd (snd entry)))
                       (args x) values
              /\ out = "(" +:+ str_join ", " values +:+ ")")
        \/ (exists lines,
              in_order described_input_value (args x) lines
              /\ out = "(" +:+ nl +:+ str_join nl lines +:+ nl +:+ ")"))
  /\ (forall i n (arg : GraphQLArgument) line,
        described_input_value (i, (n, arg)) = Ok line ->
        exists d v, _print_description arg "  " (Nat.eqb i 0) = Ok d
          /\ _print_input_value n arg = Ok v
          /\ line = d +:+ "  " +:+ v)
  /\ (forall n (arg : GraphQLArgument) out, _print_input_value n arg = Ok out ->
        exists default,
          out = n +:+ ": " +:+ type_str (arg_type arg) +:+ default
          /\ (arg_default_value arg = None /\ default = EmptyString
              \/ exists v text, arg_default_value arg = Some v
                   /\ literal_text v (Some (arg_type arg)) = Ok text
                   /\ default = " = " +:+ text))
  /\ (forall (t : GraphQLUnionType) out, _print_union t = Ok out ->
        exists d, _print_description t EmptyString true = Ok d
          /\ out = d +:+ "union " +:+ name t +:+ " = "
                   +:+ str_join " | " (map name (union_types t)))
  /\ (forall (t : GraphQLEnumType) out, _print_enum t = Ok out ->
        exists d lines,
          _print_description t EmptyString true = Ok d
          /\ in_order print_enum_value (enum_values t) lines
          /\ out = d +:+ "enum " +:+ name t +:+ " {" +:+ nl
                   +:+ str_join nl lines +:+ nl +:+ "}")
  /\ (forall i (v : GraphQLEnumValue) line, print_enum_value (i, v) = Ok line ->
        exists d deprecated,
          _print_description v "  " (Nat.eqb i 0) = Ok d
          /\ _print_deprecated v = Ok deprecated
          /\ line = d +:+ "  " +:+ name v +:+ deprecated)
  /\ (forall (t : GraphQLInputObjectType) out, _print_input_object t = Ok out ->
        exists d lines,
          _print_description t EmptyString true = Ok d
          /\ in_order described_input_value (input_fields t) lines
          /\ out = d +:+ "input " +:+ name t +:+ " {" +:+ nl
                   +:+ str_join nl lines +:+ nl +:+ "}")
  /\ (forall (t : GraphQLScalarType) out, _print_scalar t = Ok out ->
        exists d, _print_description t EmptyString true = Ok d
          /\ out = d +:+ "scalar " +:+ name t)
  /\ (forall (d : GraphQLDirective) out, _print_directive d = Ok out ->
        exists desc a, _print_description d EmptyString true = Ok desc
          /\ _print_args d = Ok a
          /\ out = desc +:+ "directive @" +:+ name d +:+ a +:+ " on "
                   +:+ str_join " | " (directive_locations d)).
Proof.
  split; [reflexivity|]. split; [reflexivity|]. split.
  { intros directive_filter type_filter out Hout.
    apply print_filtered_spec in Hout as (dblocks & tblocks & Hd & Ht & ->).
    exists dblocks, tblocks. split; [reflexivity|]. split; [exact Hd|].
    split; [apply sublist_filter|]. split; [exact Ht|]. apply printed_items_sorted. }
  split; [intros type; destruct type; try reflexivity; discriminate|].
  split; [exact print_object_inv|]. split; [exact print_interface_inv|].
  split; [exact print_field_inv|].
  split; [intros A H x out; apply print_args_inv|].
  split; [exact described_input_value_inv|]. split; [exact print_input_value_inv|].
  split; [exact print_union_inv|]. split; [exact print_enum_inv|].
  split; [exact print_enum_value_inv|]. split; [exact print_input_object_inv|].
  split; [exact print_scalar_inv | exact print_directive_inv].
Qed.

End EntryPoints.

(** ** The theorems at concrete inputs *)

Lemma break_lines_cases_witness :
  _break_lines Sample.long_line 120
  = Ok [Sample.long_first; Sample.long_second].
Proof.
  assert (Hlen : 120 + 5 <= len Sample.long_line) by (vm_compute; discriminate).
  assert (Hc : Re.compile (120 - 40) = Ok (Re.Bounded 80)) by reflexivity.
  assert (Hparts : (4 <= length (Re.split (Re.Bounded 80) Sample.long_line))%nat)
    by (vm_compute; lia).
  destruct (proj2 (proj1 (proj2 (break_lines_cases Sample.long_line 120))
                     Hlen (Re.Bounded 80) Hc) Hparts)
    as (p0 & p1 & p2 & rest & subs & Hsplit & Hpaired & ->).
  vm_compute in Hsplit. injection Hsplit as <- <- <- <-.
  inversion Hpaired as [|t a rest' subs' Hrest]; subst.
  inversion Hrest; subst. reflexivity.
Defined.

Lemma break_lines_join_witness :
  str_join " " [Sample.long_first; Sample.long_second] = Sample.long_line.
Proof.
  apply (proj1 (break_lines_join Sample.long_line 120)). reflexivity.
Defined.

(** Between 40 and 54 the bound of the repetition is below its minimum and
    the pattern does not compile: a line that is long enough raises. *)
Example break_lines_re_error :
  _break_lines Sample.long_line 50 = Raise ReError.
Proof. reflexivity. Qed.

Lemma print_schema_filters_witness :
  ("Query", Object Sample.query) ∈ printed_items Sample.schema _is_defined_type
  /\ exists out, print_schema Sample.schema = Ok out.
Proof.
  pose proof (print_schema_filters Sample.schema) as (_ & _ & Hitems & _ & Htotal).
  split.
  - apply Hitems. repeat split; try reflexivity; discriminate.
  - apply Htotal.
    + intros v t. eexists. reflexivity.
    + intros d Hin. apply list_elem_of_In in Hin. vm_compute in Hin.
      destruct Hin as [<-|[]]. reflexivity.
    + intros n t Hin. apply list_elem_of_In in Hin. vm_compute in Hin.
      destruct Hin as [[= <- <-]|[[= <- <-]|[]]]; (split; [reflexivity | discriminate]).
Defined.

Lemma print_introspection_filters_witness :
  ("__Schema", Object Sample.meta) ∈ printed_items Sample.schema _is_introspection_type
  /\ Sample.skip ∈ printed_directives Sample.schema is_spec_directive
  /\ exists out, print_introspection_schema Sample.schema = Ok out.
Proof.
  pose proof (print_introspection_filters Sample.schema)
    as (_ & Hdirs & Hitems & _ & Htotal).
  split; [|split].
  - apply Hitems. split; reflexivity.
  - apply Hdirs. split; [left | now left].
  - apply Htotal.
    + intros v t. eexists. reflexivity.
    + intros d Hin. apply list_elem_of_In in Hin. vm_compute in Hin.
      destruct Hin as [<-|[]]. reflexivity.
    + intros n t Hin. apply list_elem_of_In in Hin. vm_compute in Hin.
      destruct Hin as [[= <- <-]|[]]. split; [reflexivity | discriminate].
Defined.

Lemma printed_layout_witness :
  exists dblocks tblocks,
    print_schema Sample.schema
    = Ok (str_join (nl +:+ nl)
            (_print_schema_definition Sample.schema :: dblocks ++ tblocks) +:+ nl)
    /\ length dblocks = 1%nat /\ length tblocks = 2%nat.
Proof.
  destruct (print_schema Sample.schema) as [out|e] eqn:Hout; [|vm_compute in Hout; discriminate].
  destruct (proj1 (proj2 (proj2 (printed_layout Sample.schema))) _ _ out Hout)
    as (dblocks & tblocks & -> & Hd & _ & Ht & _).
  exists dblocks, tblocks. split; [reflexivity|].
  apply Forall2_length in Hd, Ht. split; [rewrite <- Hd | rewrite <- Ht]; reflexivity.
Defined.

(** A directive with one argument and three locations, in their declared
    order. *)
Example print_directive_skip :
  _print_directive (Ext := Sample.externals) Sample.skip
  = Ok "directive @skip(if: Boolean!) on FIELD | FRAGMENT_SPREAD | INLINE_FRAGMENT".
Proof. vm_compute. reflexivity. Qed.

(** The example of the spec: a schema with the one type [Query]. *)
Example print_schema_hello :
  print_schema
    {| get_query_type := Some Sample.query;
       get_mutation_type := None;
       get_subscription_type := None;
       get_directives := [];
       get_type_map := {[ "Query" := Object Sample.query ]} |}
  = Ok ("schema {" +:+ nl +:+ "  query: Query" +:+ nl +:+ "}" +:+ nl +:+ nl
        +:+ "type Query {" +:+ nl +:+ "  hello: String" +:+ nl +:+ "}" +:+ nl).
Proof. vm_compute. reflexivity. Qed.

(** Two described values in one block: the description of the second one
    starts on a line of its own after a blank line. *)
Example print_enum_described :
  _print_enum (Ext := Sample.externals)
    {| enum_name := "Color";
       enum_description := DescStr "The colours";
       enum_values := [Sample.red; Sample.quoted] |}
  = Ok (quote3 +:+ "The colours" +:+ quote3 +:+ nl
        +:+ "enum Color {" +:+ nl
        +:+ "  " +:+ quote3 +:+ "hi" +:+ quote3 +:+ nl
        +:+ "  RED" +:+ nl
        +:+ nl
        +:+ "  " +:+ quote3 +:+ "say " +:+ escaped_quote3 +:+ "hi" +:+ escaped_quote3
        +:+ " twice" +:+ quote3 +:+ nl
        +:+ "  QUOTED" +:+ nl
        +:+ "}").
Proof. vm_compute. reflexivity. Qed.

(** * Further properties *)

(** ** Counting characters *)

Section CountFacts.

Lemma count_char_app (c : ascii) (a b : string) :
  count_char c (a +:+ b) = (count_char c a + count_char c b)%nat.
Proof.
  induction a as [|x a IH]; [reflexivity|].
  rewrite app_str_cons. cbn [count_char]. rewrite IH. lia.
Qed.

Lemma count_char_join_zero (c : ascii) (sep : string) (l : list string) :
  count_char c (str_join sep l) = 0%nat -> Forall (fun x => count_char c x = 0%nat) l.
Proof.
  induction l as [|x [|y l] IH]; intros H.
  - constructor.
  - constructor; [exact H | constructor].
  - rewrite str_join_cons2, !count_char_app in H.
    constructor; [lia | apply IH; lia].
Qed.

Lemma count_char_join_none (c : ascii) (sep : string) (l : list string) :
  count_char c sep = 0%nat -> Forall (fun x => count_char c x = 0%nat) l ->
  count_char c (str_join sep l) = 0%nat.
Proof.
  intros Hsep. induction l as [|x [|y l] IH]; intros H.
  - reflexivity.
  - now inversion H.
  - inversion H as [|? ? Hx Hl]; subst.
    rewrite str_join_cons2, !count_char_app, Hx, Hsep, (IH Hl). reflexivity.
Qed.

Lemma count_char_join_sep (c : ascii) (sep x y : string) (l : list string) :
  (count_char c sep <= count_char c (str_join sep (x :: y :: l)))%nat.
Proof. rewrite str_join_cons2, !count_char_app. lia. Qed.

End CountFacts.

(** ** More on line wrapping *)

Section BreakLinesMore.

(** What [_break_lines] returns is the line itself or the sublines of a
    split that has a second match. *)
Lemma break_lines_inv (line : string) (max_len : Z) (subs : list string) :
  _break_lines line max_len = Ok subs ->
  subs = [line]
  \/ exists p p0 p1 p2 rest first more,
       Re.compile (max_len - 40) = Ok p
       /\ Re.split p line = p0 :: p1 :: p2 :: rest
       /\ paired rest (first :: more)
       /\ subs = (p0 +:+ p1 +:+ p2) :: first :: more
       /\ str_join " " subs = line.
Proof.
  intros Hres. destruct (len line <? max_len + 5) eqn:Hlen.
  - unfold _break_lines in Hres. rewrite Hlen in Hres. left. congruence.
  - destruct (Re.compile (max_len - 40)) as [p|e] eqn:Hp.
    + destruct (break_lines_compiled line max_len p Hlen Hp)
        as [[_ H]|(p0 & p1 & p2 & rest & subs' & Hsplit & Hge & Hpaired & H & Hjoin)];
        rewrite H in Hres; injection Hres as <-; [now left|].
      right. rewrite Hsplit in Hge.
      destruct Hpaired as [|t a rest subs' Hpaired]; [simpl in Hge; lia|].
      exists p, p0, p1, p2, (String SPACE t :: a :: rest), (t +:+ a), subs'.
      repeat split; auto. now constructor.
    + unfold _break_lines in Hres. rewrite Hlen, Hp in Hres. discriminate.
Qed.

Lemma compile_raise (n : Z) (e : exn) :
  Re.compile n = Raise e
  <-> (0 <= n < 15 /\ e = ReError) \/ (Re.MAXREPEAT <= n /\ e = OverflowError).
Proof.
  unfold Re.compile, Re.MAXREPEAT.
  destruct (n <? 0) eqn:H0; [apply Z.ltb_lt in H0|apply Z.ltb_ge in H0].
  { split; [discriminate | intros [[H _]|[H _]]; lia]. }
  destruct (n <? 15) eqn:H1; [apply Z.ltb_lt in H1|apply Z.ltb_ge in H1].
  { split; [intros [= <-]; left; split; [lia|reflexivity]
           | intros [[_ ->]|[H _]]; [reflexivity | lia]]. }
  destruct (4294967295 <=? n) eqn:H2; [apply Z.leb_le in H2|apply Z.leb_gt in H2].
  - split; [intros [= <-]; right; split; [lia|reflexivity]
           | intros [[H _]|[_ ->]]; [lia | reflexivity]].
  - split; [discriminate | intros [[H _]|[H _]]; lia].
Qed.

Lemma break_lines_raise (line : string) (max_len : Z) (e : exn) :
  _break_lines line max_len = Raise e
  <-> max_len + 5 <= len line /\ Re.compile (max_len - 40) = Raise e.
Proof.
  destruct (len line <? max_len + 5) eqn:Hlen.
  - unfold _break_lines. rewrite Hlen. apply Z.ltb_lt in Hlen.
    split; [discriminate | lia].
  - destruct (Re.compile (max_len - 40)) as [p|e'] eqn:Hp.
    + destruct (break_lines_compiled line max_len p Hlen Hp)
        as [[_ ->]|(p0 & p1 & p2 & rest & subs & _ & _ & _ & -> & _)];
        (split; [discriminate | intros [_ H]; discriminate]).
    + unfold _break_lines. rewrite Hlen, Hp. cbn [bind]. apply Z.ltb_ge in Hlen.
      split; [intros [= <-]; auto | intros [_ [= <-]]; reflexivity].
Qed.

Lemma paired_lengths (hi : Z) (a0 : string) (rest subs : list string) :
  matches_ok hi false (a0 :: rest) -> paired rest subs ->
  Forall (fun sub => 15 <= len sub) subs.
Proof.
  intros Hm Hp. revert a0 Hm.
  induction Hp as [|t a rest subs Hp IH]; intros a0 Hm; [constructor|].
  cbn [matches_ok] in Hm. destruct Hm as [[(t' & [= <-] & Hb & _)|[[=] _]] Hrest].
  constructor; [|exact (IH a Hrest)].
  unfold len in *. rewrite length_app_str. lia.
Qed.

End BreakLinesMore.

(** X4: when the bound of the pattern is at least 15, [_break_lines] returns
    the line as it is or sublines that each have at least 15 characters. *)
Theorem break_lines_min_length (line : string) (max_len : Z) (subs : list string) :
  15 <= max_len - 40 < Re.MAXREPEAT ->
  _break_lines line max_len = Ok subs ->
  subs = [line] \/ Forall (fun sub => 15 <= len sub) subs.
Proof.
  intros Hb Hres.
  destruct (break_lines_inv line max_len subs Hres)
    as [->|(p & p0 & p1 & p2 & rest & first & more & Hp & Hsplit & Hpaired & -> & _)];
    [now left | right].
  rewrite (compile_bounded _ Hb) in Hp. injection Hp as <-.
  pose proof (ReFacts.split_fuel_matches_ok (max_len - 40) (String.length line) true line)
    as Hm.
  fold (Re.split (Re.Bounded (max_len - 40)) line) in Hm. rewrite Hsplit in Hm.
  cbn [matches_ok] in Hm. destruct Hm as [Hfirst Hrest].
  constructor; [|exact (paired_lengths _ _ _ _ Hrest Hpaired)].
  destruct Hfirst as [(t & -> & Hb1 & _)|(_ & _ & Hb1 & _)];
    unfold len in *; rewrite !length_app_str; cbn [String.length]; lia.
Qed.

Lemma break_lines_min_length_witness :
  Forall (fun sub => 15 <= len sub) [Sample.long_first; Sample.long_second].
Proof.
  destruct (break_lines_min_length Sample.long_line 120
              [Sample.long_first; Sample.long_second]) as [H|H];
    [unfold Re.MAXREPEAT; lia | reflexivity | discriminate | exact H].
Defined.

(** X5: a line that holds no space is never cut: whenever [_break_lines]
    returns on it, it returns the line alone. *)
Theorem break_lines_no_space (line : string) (max_len : Z) (subs : list string) :
  count_char SPACE line = 0%nat ->
  _break_lines line max_len = Ok subs ->
  subs = [line].
Proof.
  intros Hno Hres.
  destruct (break_lines_inv line max_len subs Hres)
    as [->|(p & p0 & p1 & p2 & rest & first & more & _ & _ & _ & -> & Hjoin)];
    [reflexivity|].
  pose proof (count_char_join_sep SPACE " " (p0 +:+ p1 +:+ p2) first more) as Hsep.
  rewrite Hjoin, Hno in Hsep. cbn in Hsep. lia.
Qed.


Lemma break_lines_no_space_witness :
  _break_lines Sample.unbroken 120 = Ok [Sample.unbroken].
Proof.
  destruct (_break_lines Sample.unbroken 120) as [subs|e] eqn:Hres;
    [|vm_compute in Hres; discriminate].
  f_equal. apply (break_lines_no_space Sample.unbroken 120 subs);
    [reflexivity | exact Hres].
Defined.

(** X6: [_break_lines] raises exactly on a line of at least [max_len + 5]
    characters whose pattern does not compile: the error of the regular
    expression module when the bound [max_len - 40] is from 0 to 14, an
    overflow error when it reaches the limit on repetition counts.  It
    never raises on an index. *)
Theorem break_lines_raises (line : string) (max_len : Z) (e : exn) :
  _break_lines line max_len = Raise e
  <-> max_len + 5 <= len line
      /\ ((0 <= max_len - 40 < 15 /\ e = ReError)
          \/ (Re.MAXREPEAT <= max_len - 40 /\ e = OverflowError)).
Proof. rewrite break_lines_raise, compile_raise. reflexivity. Qed.


(** ** More on quote escaping *)

Section EscapeMore.

Lemma prefix_quote3_short1 (c : ascii) :
  String.prefix quote3 (String c EmptyString) = false.
Proof. unfold quote3. cbn [String.prefix]. now destruct (ascii_dec DQUOTE c). Qed.

Lemma prefix_quote3_short2 (c c2 : ascii) :
  String.prefix quote3 (String c (String c2 EmptyString)) = false.
Proof.
  unfold quote3. cbn [String.prefix].
  destruct (ascii_dec DQUOTE c); [|reflexivity]. now destruct (ascii_dec DQUOTE c2).
Qed.

Lemma prefix_quote3_true (s : string) :
  String.prefix quote3 s = true -> exists rest, s = quote3 +:+ rest.
Proof.
  destruct s as [|c [|c2 [|c3 rest]]].
  - discriminate.
  - now rewrite prefix_quote3_short1.
  - now rewrite prefix_quote3_short2.
  - rewrite prefix_quote3. intros H.
    apply andb_prop in H as [H H3]. apply andb_prop in H as [H1 H2].
    apply Ascii.eqb_eq in H1, H2, H3. subst. now exists rest.
Qed.

(** A text is empty, starts with three quotes, or starts with a character
    that the escaping keeps. *)
Lemma quote3_ind (P : string -> Prop) :
  P EmptyString ->
  (forall c tl, String.prefix quote3 (String c tl) = false -> P tl -> P (String c tl)) ->
  (forall rest, P rest -> P (quote3 +:+ rest)) ->
  forall s, P s.
Proof.
  intros Hnil Hskip Hhit s.
  assert (H : forall n s, (String.length s <= n)%nat -> P s).
  { induction n as [|n IH]; intros [|c tl] Hlen; simpl in Hlen; try exact Hnil; try lia.
    destruct (String.prefix quote3 (String c tl)) eqn:Hp.
    - apply prefix_quote3_true in Hp as [rest Hs]. rewrite Hs. apply Hhit, IH.
      apply (f_equal String.length) in Hs. rewrite length_app_str in Hs.
      simpl in Hs. lia.
    - apply Hskip; [exact Hp | apply IH; lia]. }
  apply (H (String.length s)). lia.
Qed.

Lemma escape_quote_cases (s : string) :
  s = EmptyString
  \/ (exists c tl, s = String c tl /\ String.prefix quote3 s = false
                   /\ _escape_quote s = String c (_escape_quote tl))
  \/ (exists rest, s = quote3 +:+ rest
                   /\ _escape_quote s = escaped_quote3 +:+ _escape_quote rest).
Proof.
  destruct s as [|c tl]; [now left | right].
  destruct (String.prefix quote3 (String c tl)) eqn:Hp.
  - right. apply prefix_quote3_true in Hp as [rest ->]. exists rest.
    split; [reflexivity | apply escape_quote_hit].
  - left. exists c, tl. split; [reflexivity|]. split; [reflexivity|].
    now apply escape_quote_skip.
Qed.

(** The escaped text never starts with three quotes. *)
Lemma escape_quote_no_prefix (s : string) :
  String.prefix quote3 (_escape_quote s) = false.
Proof.
  destruct (escape_quote_cases s)
    as [->|[(c & tl & -> & Hp & ->)|(rest & -> & ->)]]; [reflexivity| |reflexivity].
  destruct (escape_quote_cases tl)
    as [->|[(c2 & tl2 & -> & Hp2 & ->)|(rest & -> & ->)]].
  - apply prefix_quote3_short1.
  - destruct (escape_quote_cases tl2)
      as [->|[(c3 & tl3 & -> & Hp3 & ->)|(rest & -> & ->)]].
    + apply prefix_quote3_short2.
    + rewrite prefix_quote3 in Hp |- *. exact Hp.
    + unfold escaped_quote3. rewrite app_str_assoc, app_str_cons, prefix_quote3.
      now rewrite andb_false_r.
  - unfold escaped_quote3, quote3. rewrite app_str_assoc, app_str_cons.
    cbn [String.prefix]. destruct (ascii_dec DQUOTE c); [|reflexivity].
    now destruct (ascii_dec DQUOTE "\"%char).
Qed.

Lemma unescape_quote_skip (c : ascii) (tl : string) :
  String.prefix quote3 tl = false ->
  unescape_quote (String c tl) = String c (unescape_quote tl).
Proof.
  destruct tl as [|c2 [|c3 [|c4 rest]]]; try reflexivity.
  rewrite prefix_quote3. cbn [unescape_quote].
  destruct (Ascii.eqb c "\"%char), (Ascii.eqb c2 DQUOTE), (Ascii.eqb c3 DQUOTE),
    (Ascii.eqb c4 DQUOTE); try reflexivity; discriminate.
Qed.

Lemma unescape_escape (s : string) : unescape_quote (_escape_quote s) = s.
Proof.
  induction s as [|c tl Hp IH|rest IH] using quote3_ind.
  - reflexivity.
  - rewrite escape_quote_skip by exact Hp.
    rewrite unescape_quote_skip by apply escape_quote_no_prefix. now rewrite IH.
  - rewrite escape_quote_hit.
    change (unescape_quote (escaped_quote3 +:+ _escape_quote rest))
      with (quote3 +:+ unescape_quote (_escape_quote rest)).
    now rewrite IH.
Qed.

(** Escaping adds backslashes and nothing else. *)
Lemma count_char_escape (c : ascii) (s : string) :
  c <> "\"%char -> count_char c (_escape_quote s) = count_char c s.
Proof.
  intros Hc. induction s as [|x tl Hp IH|rest IH] using quote3_ind.
  - reflexivity.
  - rewrite escape_quote_skip by exact Hp. cbn [count_char]. now rewrite IH.
  - rewrite escape_quote_hit. unfold escaped_quote3.
    rewrite !count_char_app, IH. cbn [count_char].
    destruct (Ascii.eqb "\" c) eqn:E; [apply Ascii.eqb_eq in E; congruence | lia].
Qed.

End EscapeMore.

(** X8: escaping loses nothing: reading each backslash followed by three
    double quotes as the three quotes gives the text back, so two texts with
    the same escaped form are the same text. *)
Theorem escape_quote_injective :
  (forall s, unescape_quote (_escape_quote s) = s)
  /\ (forall s1 s2, _escape_quote s1 = _escape_quote s2 -> s1 = s2).
Proof.
  split; [exact unescape_escape|].
  intros s1 s2 H. rewrite <- (unescape_escape s1), <- (unescape_escape s2).
  now rewrite H.
Qed.


(** ** More on descriptions *)

Section DescriptionMore.

Lemma str_join_push (sep : string) (c : ascii) (h : string) (t : list string) :
  str_join sep (String c h :: t) = String c (str_join sep (h :: t)).
Proof. destruct t; [reflexivity|]. now rewrite !str_join_cons2, app_str_cons. Qed.

(** Joining the lines of [split_lines] by line feeds gives the text. *)
Lemma split_lines_join (s : string) : str_join nl (split_lines s) = s.
Proof.
  induction s as [|c s IH]; [reflexivity|]. cbn [split_lines].
  pose proof (split_lines_nonempty s) as Hne.
  destruct (split_lines s) as [|h t]; [congruence|].
  destruct (Ascii.eqb c LF) eqn:Hc.
  - apply Ascii.eqb_eq in Hc. subst c. rewrite str_join_cons2, IH. reflexivity.
  - now rewrite str_join_push, IH.
Qed.

Lemma split_lines_no_lf (s : string) :
  Forall (fun line => count_char LF line = 0%nat) (split_lines s).
Proof.
  induction s as [|c s IH]; [repeat constructor|]. cbn [split_lines].
  destruct (Ascii.eqb c LF) eqn:Hc; [constructor; [reflexivity | exact IH]|].
  destruct (split_lines s) as [|h t]; [repeat constructor; cbn; now rewrite Hc|].
  inversion IH as [|? ? Hh Ht]; subst.
  constructor; [cbn [count_char]; now rewrite Hc, Hh | exact Ht].
Qed.

(** The lines of a description come in groups, one group per raw line,
    and a group joined by single spaces is its raw line. *)
Lemma description_loop_groups (max_len : Z) : forall raw_lines acc lines,
  description_loop raw_lines max_len acc = Ok lines ->
  exists groups,
    lines = acc ++ List.concat groups
    /\ Forall2 (fun raw group => group <> [] /\ str_join " " group = raw)
               raw_lines groups.
Proof.
  induction raw_lines as [|line raw IH]; intros acc lines; cbn [description_loop].
  - intros [= <-]. exists []. split; [now rewrite app_nil_r | constructor].
  - destruct (String.eqb line EmptyString) eqn:He.
    + intros Hl. apply IH in Hl as (groups & -> & Hg).
      apply String.eqb_eq in He. subst line.
      exists ([EmptyString] :: groups). split; [now rewrite <- app_assoc|].
      constructor; [split; [discriminate | reflexivity] | exact Hg].
    + destruct (_break_lines line max_len) as [subs|e] eqn:Hb; [|discriminate].
      cbn [bind]. intros Hl. apply IH in Hl as (groups & -> & Hg).
      exists (subs :: groups). split; [now rewrite <- app_assoc|].
      constructor; [|exact Hg]. split; [now apply break_lines_nonempty in Hb|].
      destruct (break_lines_inv _ _ _ Hb)
        as [->|(_ & _ & _ & _ & _ & _ & _ & _ & _ & _ & _ & Hjoin)];
        [reflexivity | exact Hjoin].
Qed.

Lemma description_loop_short (max_len : Z) : forall raw_lines acc,
  Forall (fun line => len line < max_len + 5) raw_lines ->
  description_loop raw_lines max_len acc = Ok (acc ++ raw_lines).
Proof.
  induction raw_lines as [|line raw IH]; intros acc Hs; cbn [description_loop].
  - now rewrite app_nil_r.
  - inversion Hs as [|? ? Hline Hraw]; subst.
    replace (acc ++ line :: raw) with ((acc ++ [line]) ++ raw)
      by now rewrite <- app_assoc.
    destruct (String.eqb line EmptyString); [now apply IH|].
    unfold _break_lines. apply Z.ltb_lt in Hline. rewrite Hline. cbn [bind].
    now apply IH.
Qed.

Lemma description_loop_raise (max_len : Z) (e : exn) : forall raw_lines acc,
  description_loop raw_lines max_len acc = Raise e ->
  exists line, line ∈ raw_lines /\ _break_lines line max_len = Raise e.
Proof.
  induction raw_lines as [|line raw IH]; intros acc; cbn [description_loop];
    [discriminate|].
  destruct (String.eqb line EmptyString).
  - intros H. apply IH in H as (l & Hin & Hl). exists l. split; [now right | exact Hl].
  - destruct (_break_lines line max_len) as [subs|e'] eqn:Hb; cbn [bind].
    + intros H. apply IH in H as (l & Hin & Hl). exists l. split; [now right | exact Hl].
    + intros [= <-]. exists line. split; [now left | exact Hb].
Qed.

Lemma description_loop_no_lf (max_len : Z) : forall raw_lines acc lines,
  description_loop raw_lines max_len acc = Ok lines ->
  Forall (fun line => count_char LF line = 0%nat) raw_lines ->
  Forall (fun line => count_char LF line = 0%nat) acc ->
  Forall (fun line => count_char LF line = 0%nat) lines.
Proof.
  intros raw_lines acc lines Hl Hraw Hacc.
  apply description_loop_groups in Hl as (groups & -> & Hg).
  apply Forall_app. split; [exact Hacc|].
  clear Hacc. induction Hg as [|raw group raws groups [_ Hjoin] Hg IH];
    [constructor|].
  inversion Hraw as [|? ? Hr Hrs]; subst. cbn [List.concat].
  apply Forall_app. split; [|now apply IH].
  now apply (count_char_join_zero LF " ").
Qed.

Lemma description_lines_no_lf (d : Description) (max_len : Z) (lines : list string) :
  _description_lines d max_len = Ok lines ->
  Forall (fun line => count_char LF line = 0%nat) lines.
Proof.
  unfold _description_lines.
  destruct (description_text d) as [text|e]; [|discriminate]. cbn [bind]. intros Hl.
  apply (description_loop_no_lf _ _ _ _ Hl); [apply split_lines_no_lf | constructor].
Qed.

Lemma print_description_raise_inv {A : Type} `{HasDescription A}
    (definition : A) (indentation : string) (first_in_block : bool) (e : exn) :
  _print_description definition indentation first_in_block = Raise e ->
  truthy (description definition) = true
  /\ _description_lines (description definition) (MAX_DESC_LEN - len indentation)
     = Raise e.
Proof.
  intros Hr. destruct (truthy (description definition)) eqn:Ht;
    [|unfold _print_description in Hr; rewrite Ht in Hr; discriminate].
  split; [reflexivity|].
  destruct (_description_lines (description definition)
              (MAX_DESC_LEN - len indentation)) as [lines|e'] eqn:Hl.
  - pose proof (description_lines_nonempty _ _ _ Ht Hl) as Hne.
    destruct (print_description_forms definition indentation first_in_block
                lines Ht Hl Hne) as (text & Hres & _). congruence.
  - unfold _print_description in Hr. rewrite Ht, Hl in Hr. cbn in Hr. congruence.
Qed.

End DescriptionMore.

(** X3: the lines [_description_lines] returns come in groups, one per line
    of the description and none of them empty; a group joined by single
    spaces is its line, so the groups joined by spaces and then by line
    feeds are the description. *)
Theorem description_lines_regroup (d : Description) (s : string) (max_len : Z)
    (lines : list string) :
  d = DescStr s \/ d = DescCallable s ->
  _description_lines d max_len = Ok lines ->
  exists groups,
    lines = List.concat groups
    /\ Forall2 (fun raw group => group <> [] /\ str_join " " group = raw)
               (split_lines s) groups
    /\ str_join nl (map (str_join " ") groups) = s.
Proof.
  intros Hd Hl.
  assert (Hloop : description_loop (split_lines s) max_len [] = Ok lines)
    by (destruct Hd as [-> | ->]; exact Hl).
  apply description_loop_groups in Hloop as (groups & -> & Hg).
  exists groups. split; [reflexivity|]. split; [exact Hg|].
  transitivity (str_join nl (split_lines s)); [|apply split_lines_join]. f_equal.
  clear Hl. induction Hg as [|raw group raws groups [_ Hjoin] Hg IH];
    [reflexivity|]. cbn [map]. now rewrite Hjoin, IH.
Qed.

Lemma description_lines_regroup_witness :
  exists groups,
    [ "Summary"; Sample.long_first; Sample.long_second ] = List.concat groups
    /\ str_join nl (map (str_join " ") groups) = "Summary" +:+ nl +:+ Sample.long_line.
Proof.
  destruct (description_lines_regroup (description Sample.wordy)
              ("Summary" +:+ nl +:+ Sample.long_line) 120
              [ "Summary"; Sample.long_first; Sample.long_second ])
    as (groups & Hc & _ & Hj); [now left | reflexivity |].
  exists groups. split; [exact Hc | exact Hj].
Defined.

(** X7: a description whose lines are all shorter than [max_len + 5] is cut
    at its line feeds and nowhere else, whatever the bound of the pattern:
    the lines are those of the text, the empty ones among them. *)
Theorem description_lines_short (s : string) (max_len : Z) :
  Forall (fun line => len line < max_len + 5) (split_lines s) ->
  _description_lines (DescStr s) max_len = Ok (split_lines s)
  /\ _description_lines (DescCallable s) max_len = Ok (split_lines s).
Proof.
  intros Hs. unfold _description_lines.
  split; apply (description_loop_short max_len (split_lines s) [] Hs).
Qed.

Lemma description_lines_short_witness :
  _description_lines (description Sample.three_lines) 50
  = Ok ["first line"; EmptyString; "third line"].
Proof.
  assert (Hs : Forall (fun line => len line < 50 + 5)
                 (split_lines ("first line" +:+ nl +:+ nl +:+ "third line")))
    by (repeat constructor).
  exact (proj1 (description_lines_short _ 50 Hs)).
Defined.

(** X9: on a description that is a [str] or a callable that returns its
    text, the description formatter raises only the error of the regular
    expression module, and only for an indentation of 66 to 80 characters;
    it never raises on an index.  On a description of another type, whose
    call raises, it raises what the call raises, whatever the
    indentation. *)
Theorem print_description_raises {A : Type} `{HasDescription A}
    (definition : A) (indentation : string) (first_in_block : bool) :
  (forall e, _print_description definition indentation first_in_block = Raise e ->
     (exists s, (description definition = DescStr s
                 \/ description definition = DescCallable s)
                /\ e = ReError /\ 65 < len indentation <= 80)
     \/ description definition = DescFailing e)
  /\ (forall e, description definition = DescFailing e ->
        _print_description definition indentation first_in_block = Raise e).
Proof.
  split.
  - intros e Hr. apply print_description_raise_inv in Hr as [Ht Hl].
    unfold _description_lines in Hl.
    assert (Hloop : forall s,
              description_loop (split_lines s) (MAX_DESC_LEN - len indentation) []
              = Raise e -> e = ReError /\ 65 < len indentation <= 80).
    { intros s Hs. apply description_loop_raise in Hs as (line & _ & Hb).
      apply break_lines_raise in Hb as [_ Hc]. apply compile_raise in Hc.
      unfold MAX_DESC_LEN, Re.MAXREPEAT, len in *.
      destruct Hc as [[Hn ->]|[Hn _]]; [|lia]. split; [reflexivity | lia]. }
    destruct (description definition) as [|s|s|e0] eqn:Hd; cbn in Hl.
    + discriminate.
    + left. exists s. split; [now left | now apply (Hloop s)].
    + left. exists s. split; [now right | now apply (Hloop s)].
    + right. congruence.
  - intros e Hd. unfold _print_description, _description_lines. now rewrite Hd.
Qed.

Lemma print_description_raises_witness :
  ((exists s, (description Sample.wordy = DescStr s
               \/ description Sample.wordy = DescCallable s)
              /\ ReError = ReError /\ 65 < len Sample.indent70 <= 80)
   \/ description Sample.wordy = DescFailing ReError)
  /\ _print_description Sample.lazy_scalar EmptyString true = Raise TypeError.
Proof.
  split.
  - apply (proj1 (print_description_raises Sample.wordy Sample.indent70 true) ReError).
    reflexivity.
  - apply (proj2 (print_description_raises Sample.lazy_scalar EmptyString true)
             TypeError).
    reflexivity.
Defined.

(** X10: the formatter returns the empty text exactly when the description
    is missing or empty; a description that is there always gives some
    text, the opening quotes at least. *)
Theorem print_description_empty {A : Type} `{HasDescription A}
    (definition : A) (indentation : string) (first_in_block : bool) :
  _print_description definition indentation first_in_block = Ok EmptyString
  <-> truthy (description definition) = false.
Proof.
  split.
  - intros Hres. destruct (truthy (description definition)) eqn:Ht; [|reflexivity].
    destruct (_description_lines (description definition)
                (MAX_DESC_LEN - len indentation)) as [lines|e] eqn:Hl.
    + pose proof (description_lines_nonempty _ _ _ Ht Hl) as Hne.
      destruct (print_description_forms definition indentation first_in_block
                  lines Ht Hl Hne) as (text & Hout & _).
      rewrite Hout in Hres. injection Hres as Hres.
      apply (f_equal String.length) in Hres.
      rewrite !length_app_str in Hres. simpl in Hres. lia.
    + unfold _print_description in Hres. rewrite Ht, Hl in Hres. discriminate.
  - intros Ht. unfold _print_description. now rewrite Ht.
Qed.

(** X11: the block string of a description holds at most three line feeds,
    however many lines the description has: one after the closing quotes,
    one after the opening quotes unless the text starts with a space or a
    tab, and one before the indentation of a definition that is not the
    first of its block.  The line feeds of the description itself are not
    in it. *)
Theorem print_description_flattened {A : Type} `{HasDescription A}
    (definition : A) (indentation : string) (first_in_block : bool) (out : string) :
  count_char LF indentation = 0%nat ->
  _print_description definition indentation first_in_block = Ok out ->
  (count_char LF out <= 3)%nat
  /\ (first_in_block = true -> (count_char LF out <= 2)%nat).
Proof.
  intros Hind Hres. destruct (truthy (description definition)) eqn:Ht.
  - destruct (_description_lines (description definition)
                (MAX_DESC_LEN - len indentation)) as [lines|e] eqn:Hl;
      [|unfold _print_description in Hres; rewrite Ht, Hl in Hres; discriminate].
    pose proof (description_lines_nonempty _ _ _ Ht Hl) as Hne.
    pose proof (description_lines_no_lf _ _ _ Hl) as Hno.
    destruct (print_description_forms definition indentation first_in_block
                lines Ht Hl Hne) as (text & Hout & Htext).
    rewrite Hout in Hres. injection Hres as <-.
    assert (Hesc : count_char LF (str_join EmptyString (map _escape_quote lines)) = 0%nat).
    { apply count_char_join_none; [reflexivity|].
      apply Forall_map. eapply Forall_impl; [exact Hno|].
      intros line Hline. cbn beta. rewrite count_char_escape; [exact Hline | discriminate]. }
    assert (Htext' : (count_char LF text <= 2)%nat).
    { destruct Htext as [(line & -> & _ & _ & ->)|[_ (sep & Hsep & ->)]].
      - cbn [map] in Hesc. change (str_join EmptyString [_escape_quote line])
          with (_escape_quote line) in Hesc.
        rewrite !count_char_app, Hesc. cbn. lia.
      - rewrite !count_char_app, Hesc, Hind.
        destruct Hsep as [-> | ->]; cbn; lia. }
    rewrite !count_char_app. unfold block_prefix.
    change (count_char LF quote3) with 0%nat.
    destruct first_in_block.
    + rewrite andb_false_r, Hind. split; [lia | intros _; lia].
    + destruct (nonempty indentation); cbn [andb negb];
        rewrite ?count_char_app, Hind; cbn; (split; [lia | discriminate]).
  - unfold _print_description in Hres. rewrite Ht in Hres. injection Hres as <-.
    cbn. split; [lia | intros _; lia].
Qed.

Lemma print_description_flattened_witness :
  exists out, _print_description Sample.three_lines "  " false = Ok out
    /\ (count_char LF out <= 3)%nat.
Proof.
  destruct (_print_description Sample.three_lines "  " false) as [out|e] eqn:Hres;
    [|vm_compute in Hres; discriminate].
  exists out. split; [reflexivity|].
  apply (print_description_flattened Sample.three_lines "  " false out);
    [reflexivity | exact Hres].
Defined.


(** ** More on the schema printer *)

Section SchemaMore.
Context `{Ext : Externals}.

Lemma mapM_result_raise {A B : Type} (f : A -> result B) (l : list A) (e : exn) :
  mapM_result f l = Raise e -> exists x, x ∈ l /\ f x = Raise e.
Proof.
  induction l as [|x l IH]; cbn [mapM_result]; [discriminate|].
  destruct (f x) as [y|e'] eqn:Hx; cbn [bind].
  - destruct (mapM_result f l) as [ys|e'] eqn:Hl; cbn [bind]; [discriminate|].
    intros [= <-]. destruct (IH eq_refl) as (x' & Hin & Hx').
    exists x'. split; [now right | exact Hx'].
  - intros [= <-]. exists x. split; [now left | exact Hx].
Qed.

Lemma print_filtered_raise_source (schema : GraphQLSchema)
    (directive_filter type_filter : string -> bool) (e : exn) :
  _print_filtered_schema schema directive_filter type_filter = Raise e ->
  (exists d, d ∈ printed_directives schema directive_filter
             /\ _print_directive d = Raise e)
  \/ (exists n t, (n, t) ∈ printed_items schema type_filter
                  /\ _print_type t = Raise e).
Proof.
  unfold _print_filtered_schema.
  fold (printed_directives schema directive_filter).
  fold (printed_items schema type_filter).
  destruct (mapM_result _print_directive _) as [dblocks|e'] eqn:Hd; cbn [bind].
  - destruct (mapM_result _ (printed_items schema type_filter))
      as [tblocks|e''] eqn:Ht; cbn [bind]; [discriminate|].
    intros [= <-]. apply mapM_result_raise in Ht as ([n t] & Hin & Hr).
    right. exists n, t. auto.
  - intros [= <-]. apply mapM_result_raise in Hd as (d & Hin & Hr).
    left. exists d. auto.
Qed.

Lemma print_filtered_unknown (schema : GraphQLSchema)
    (directive_filter type_filter : string -> bool) (n : string) :
  get_type_map schema !! n = Some OtherType -> type_filter n = true ->
  forall out, _print_filtered_schema schema directive_filter type_filter <> Ok out.
Proof.
  intros Hm Hf out Hres.
  apply print_filtered_spec in Hres as (dblocks & tblocks & _ & Ht & _).
  assert (Hin : (n, OtherType) ∈ printed_items schema type_filter)
    by (apply elem_of_printed_items; auto).
  destruct (Forall2_exists_l _ _ _ Ht _ Hin) as [b Hb]. discriminate.
Qed.

Lemma print_filtered_raise (schema : GraphQLSchema)
    (directive_filter type_filter : string -> bool) :
  service_returns ->
  (forall d, d ∈ printed_directives schema directive_filter ->
             directive_readable d = true) ->
  (forall n t, (n, t) ∈ printed_items schema type_filter -> type_readable t = true) ->
  forall e,
    _print_filtered_schema schema directive_filter type_filter = Raise e
    <-> e = AssertionError
        /\ exists n, get_type_map schema !! n = Some OtherType /\ type_filter n = true.
Proof.
  intros Hs Hd Ht.
  assert (Hfwd : forall e', _print_filtered_schema schema directive_filter type_filter
                            = Raise e' ->
            e' = AssertionError
            /\ exists n, get_type_map schema !! n = Some OtherType
                         /\ type_filter n = true).
  { intros e' Hr. apply print_filtered_raise_source in Hr
      as [(d & Hin & Hr)|(n & t & Hin & Hr)].
    - destruct (print_directive_total Hs d (Hd d Hin)) as [text Hok]. congruence.
    - apply (print_type_raise_readable Hs) in Hr as [-> ->]; [|exact (Ht n t Hin)].
      apply elem_of_printed_items in Hin. split; [reflexivity | eauto]. }
  intros e. split; [apply Hfwd|].
  intros (-> & n & Hm & Hf).
  destruct (_print_filtered_schema schema directive_filter type_filter)
    as [out|e'] eqn:Hres.
  - now destruct (print_filtered_unknown schema directive_filter type_filter n Hm Hf out).
  - now destruct (Hfwd e' eq_refl) as [-> _].
Qed.

Lemma builtin_not_introspection (n : string) :
  _is_builtin_scalar n = true -> _is_introspection_type n = false.
Proof.
  rewrite is_builtin_scalar_spec. intros [-> | [-> | [-> | [-> | ->]]]]; reflexivity.
Qed.

Lemma length_filter_three {A : Type} (f g : A -> bool) (l : list A) :
  (forall x, g x = true -> f x = false) ->
  (length (filter (fun x => negb (f x) && negb (g x) = true) l)
   + length (filter (fun x => f x = true) l)
   + length (filter (fun x => g x = true) l) = length l)%nat.
Proof.
  intros Hfg. induction l as [|x l IH]; [reflexivity|].
  rewrite !filter_cons.
  destruct (f x) eqn:Hf, (g x) eqn:Hg; cbn [negb andb];
    try (apply Hfg in Hg; congruence);
    repeat case_decide; try congruence; cbn [length]; lia.
Qed.

Lemma length_filter_two {A : Type} (f : A -> bool) (l : list A) :
  (length (filter (fun x => negb (f x) = true) l)
   + length (filter (fun x => f x = true) l) = length l)%nat.
Proof.
  induction l as [|x l IH]; [reflexivity|].
  rewrite !filter_cons.
  destruct (f x) eqn:Hf; cbn [negb];
    repeat case_decide; try congruence; cbn [length]; lia.
Qed.

Lemma printed_items_exclusive (schema : GraphQLSchema) (n : string) (t : GraphQLType) :
  get_type_map schema !! n = Some t ->
  ((n, t) ∈ printed_items schema _is_defined_type
   \/ (n, t) ∈ printed_items schema _is_introspection_type
   \/ _is_builtin_scalar n = true)
  /\ ~ ((n, t) ∈ printed_items schema _is_defined_type
        /\ (n, t) ∈ printed_items schema _is_introspection_type)
  /\ ~ ((n, t) ∈ printed_items schema _is_defined_type /\ _is_builtin_scalar n = true)
  /\ ~ ((n, t) ∈ printed_items schema _is_introspection_type
        /\ _is_builtin_scalar n = true).
Proof.
  intros Hm. rewrite !elem_of_printed_items. unfold _is_defined_type.
  pose proof (builtin_not_introspection n) as Hb.
  destruct (_is_introspection_type n), (_is_builtin_scalar n); cbn [negb andb];
    intuition congruence.
Qed.

(** X1: the two entry points share the schema out between them.  When both
    return, the blocks of the first text are those of the directives and
    items that pass the filters of [print_schema], the blocks of the second
    those that pass the filters of [print_introspection_schema]; every
    declared directive passes exactly one of the two directive filters, and
    every item of the type map passes exactly one of the two type filters
    or stands under the name of a builtin scalar, which passes neither. *)
Theorem entry_points_partition (schema : GraphQLSchema) (out1 out2 : string) :
  print_schema schema = Ok out1 ->
  print_introspection_schema schema = Ok out2 ->
  exists d1 t1 d2 t2,
    out1 = str_join (nl +:+ nl) (_print_schema_definition schema :: d1 ++ t1) +:+ nl
    /\ out2 = str_join (nl +:+ nl) (_print_schema_definition schema :: d2 ++ t2) +:+ nl
    /\ Forall2 (fun d b => _print_directive d = Ok b)
         (printed_directives schema (fun n => negb (is_spec_directive n))) d1
    /\ Forall2 (fun item b => _print_type (snd item) = Ok b)
         (printed_items schema _is_defined_type) t1
    /\ Forall2 (fun d b => _print_directive d = Ok b)
         (printed_directives schema is_spec_directive) d2
    /\ Forall2 (fun item b => _print_type (snd item) = Ok b)
         (printed_items schema _is_introspection_type) t2
    /\ (forall d, d ∈ get_directives schema ->
          (d ∈ printed_directives schema (fun n => negb (is_spec_directive n))
           <-> d ∉ printed_directives schema is_spec_directive))
    /\ (forall n t, get_type_map schema !! n = Some t ->
          ((n, t) ∈ printed_items schema _is_defined_type
           \/ (n, t) ∈ printed_items schema _is_introspection_type
           \/ _is_builtin_scalar n = true)
          /\ ~ ((n, t) ∈ printed_items schema _is_defined_type
                /\ (n, t) ∈ printed_items schema _is_introspection_type)
          /\ ~ ((n, t) ∈ printed_items schema _is_defined_type
                /\ _is_builtin_scalar n = true)
          /\ ~ ((n, t) ∈ printed_items schema _is_introspection_type
                /\ _is_builtin_scalar n = true))
    /\ (length d1 + length d2 = length (get_directives schema))%nat
    /\ (length t1 + length t2 + length (printed_items schema _is_builtin_scalar)
        = size (get_type_map schema))%nat.
Proof.
  intros H1 H2.
  apply print_filtered_spec in H1 as (d1 & t1 & Hd1 & Ht1 & ->).
  apply print_filtered_spec in H2 as (d2 & t2 & Hd2 & Ht2 & ->).
  exists d1, t1, d2, t2. split; [reflexivity|]. split; [reflexivity|].
  split; [exact Hd1|]. split; [exact Ht1|]. split; [exact Hd2|]. split; [exact Ht2|].
  split.
  { intros d Hin. rewrite !elem_of_printed_directives.
    destruct (is_spec_directive (name d)); cbn [negb]; intuition congruence. }
  split; [exact (printed_items_exclusive schema)|].
  apply Forall2_length in Hd1, Ht1, Hd2, Ht2.
  rewrite <- Hd1, <- Hd2, <- Ht1, <- Ht2. split.
  - apply (length_filter_two (fun d => is_spec_directive (name d))).
  - rewrite <- length_map_to_list, <- (Permutation_length (sorted_items_perm schema)).
    apply (length_filter_three (fun item => _is_introspection_type (fst item))
             (fun item => _is_builtin_scalar (fst item))).
    intros item. apply builtin_not_introspection.
Qed.

(** X2: a call of the schema printer that raises, raises what the
    formatter raised on a directive or on an item that passes the filters:
    what the filters drop is never formatted.  With a type of none of the
    six kinds under a name that passes the type filter the call never
    returns.  When the literal-text service returns and the descriptions of
    what passes can be read, the call raises exactly then, and what it
    raises is the failed assertion of the dispatcher.  The two entry points
    are such calls. *)
Theorem entry_points_raise (schema : GraphQLSchema)
    (directive_filter type_filter : string -> bool) :
  print_schema schema
  = _print_filtered_schema schema (fun n => negb (is_spec_directive n)) _is_defined_type
  /\ print_introspection_schema schema
     = _print_filtered_schema schema is_spec_directive _is_introspection_type
  /\ (forall e,
        _print_filtered_schema schema directive_filter type_filter = Raise e ->
        (exists d, d ∈ printed_directives schema directive_filter
                   /\ _print_directive d = Raise e)
        \/ (exists n t, (n, t) ∈ printed_items schema type_filter
                        /\ _print_type t = Raise e))
  /\ (forall n, get_type_map schema !! n = Some OtherType -> type_filter n = true ->
        forall out,
          _print_filtered_schema schema directive_filter type_filter <> Ok out)
  /\ (service_returns ->
      (forall d, d ∈ printed_directives schema directive_filter ->
                 directive_readable d = true) ->
      (forall n t, (n, t) ∈ printed_items schema type_filter ->
                   type_readable t = true) ->
      forall e,
        _print_filtered_schema schema directive_filter type_filter = Raise e
        <-> e = AssertionError
            /\ exists n, get_type_map schema !! n = Some OtherType
                         /\ type_filter n = true).
Proof.
  split; [reflexivity|]. split; [reflexivity|].
  split; [intros e; apply print_filtered_raise_source|].
  split; [apply print_filtered_unknown | apply print_filtered_raise].
Qed.

(** X12: the argument list is the empty text exactly when there is no
    argument. *)
Theorem print_args_empty {A : Type} {H : @HasArgs Ext A} (x : A) :
  _print_args x = Ok EmptyString <-> args x = [].
Proof.
  split.
  - intros Hres. destruct (print_args_inv x EmptyString Hres)
      as [[Ha _]|[(values & _ & Hbad)|(lines & _ & Hbad)]]; [exact Ha | |];
      apply (f_equal String.length) in Hbad; rewrite app_str_cons in Hbad;
      discriminate.
  - intros Ha. unfold _print_args. now rewrite Ha.
Qed.

(** X13: the deprecation annotation is the empty text exactly when there is
    no reason; with a reason, the empty one too, a returned annotation
    starts with the directive. *)
Theorem print_deprecated_empty {A : Type} `{HasDeprecationReason A} (x : A) :
  (_print_deprecated x = Ok EmptyString <-> deprecation_reason x = None)
  /\ (forall reason out, deprecation_reason x = Some reason ->
        _print_deprecated x = Ok out ->
        String.prefix " @deprecated" out = true).
Proof.
  unfold _print_deprecated. destruct (deprecation_reason x) as [reason|].
  - destruct (String.eqb reason EmptyString
              || String.eqb reason DEFAULT_DEPRECATION_REASON).
    + split; [split; discriminate|]. now intros r out _ [= <-].
    + destruct (literal_text (str_value reason) None) as [text|e]; cbn [bind].
      * split; [split; discriminate|]. intros r out _ [= <-].
        change (" @deprecated(reason: " +:+ text +:+ ")")
          with (" @deprecated" +:+ "(reason: " +:+ text +:+ ")").
        apply str_prefix_app.
      * split; [split; discriminate|]. intros r out _. discriminate.
  - split; [split; reflexivity | discriminate].
Qed.

End SchemaMore.

Lemma entry_points_partition_witness :
  exists d1 t1 d2 t2 : list string,
    Forall2 (fun d b => _print_directive d = Ok b) [Sample.tag] d1
    /\ Forall2 (fun d b => _print_directive d = Ok b) [Sample.skip] d2
    /\ (length d1 + length d2 = 2)%nat /\ (length t1 + length t2 + 1 = 4)%nat.
Proof.
  destruct (print_schema Sample.schema) as [out1|e] eqn:H1;
    [|vm_compute in H1; discriminate].
  destruct (print_introspection_schema Sample.schema) as [out2|e] eqn:H2;
    [|vm_compute in H2; discriminate].
  destruct (entry_points_partition Sample.schema out1 out2 H1 H2)
    as (d1 & t1 & d2 & t2 & _ & _ & Hd1 & _ & Hd2 & _ & _ & _ & Hd & Ht).
  exists d1, t1, d2, t2.
  split; [exact Hd1|]. split; [exact Hd2|]. split; [exact Hd | exact Ht].
Defined.

Lemma entry_points_raise_witness :
  print_schema Sample.unknown_schema = Raise AssertionError
  /\ forall out, print_introspection_schema Sample.unknown_schema <> Ok out.
Proof.
  split.
  - pose proof (entry_points_raise Sample.unknown_schema
                  (fun n => negb (is_spec_directive n)) _is_defined_type)
      as (_ & _ & _ & _ & Hiff).
    apply Hiff.
    + intros v t. eexists. reflexivity.
    + intros d Hin. apply list_elem_of_In in Hin. vm_compute in Hin.
      destruct Hin as [<-|[]]. reflexivity.
    + intros n t Hin. apply list_elem_of_In in Hin. vm_compute in Hin.
      destruct Hin as [[= <- <-]|[[= <- <-]|[]]]; reflexivity.
    + split; [reflexivity|]. exists "Wrapper". split; reflexivity.
  - pose proof (entry_points_raise Sample.unknown_schema
                  is_spec_directive _is_introspection_type)
      as (_ & _ & _ & Hnever & _).
    apply (Hnever "__Hidden"); reflexivity.
Defined.


(** ** Described members of a block *)

Section Members.
Context `{Ext : Externals}.

Lemma print_description_opening {A : Type} `{HasDescription A}
    (definition : A) (indentation : string) (first_in_block : bool) (d : string) :
  truthy (description definition) = true ->
  _print_description definition indentation first_in_block = Ok d ->
  exists text, d = (block_prefix indentation first_in_block +:+ quote3) +:+ text.
Proof.
  intros Ht Hd.
  destruct (_description_lines (description definition)
              (MAX_DESC_LEN - len indentation)) as [lines|e] eqn:Hl;
    [|unfold _print_description in Hd; rewrite Ht, Hl in Hd; discriminate].
  pose proof (description_lines_nonempty _ _ _ Ht Hl) as Hne.
  destruct (print_description_forms definition indentation first_in_block
              lines Ht Hl Hne) as (text & Hout & _).
  exists text. rewrite app_str_assoc. congruence.
Qed.

Lemma member_opening_cases (idx : nat) :
  (idx = 0%nat -> member_opening idx = "  " +:+ quote3)
  /\ (idx <> 0%nat -> member_opening idx = nl +:+ "  " +:+ quote3).
Proof.
  unfold member_opening. split.
  - now intros ->.
  - intros Hne. destruct idx; [congruence | reflexivity].
Qed.

(** X14: in the block of an object, an interface, an enum or an input
    object, and in an argument list written as a block, the line of a
    described member starts with the indented opening quotes when the
    member is the first of the block, and with a line feed before them when
    it is not: a blank line parts a described member from the one before
    it. *)
Theorem described_members_open (idx : nat) :
  (forall f_name (f : GraphQLField) line,
     truthy (description f) = true ->
     print_field (idx, (f_name, f)) = Ok line ->
     String.prefix (member_opening idx) line = true)
  /\ (forall (v : GraphQLEnumValue) line,
        truthy (description v) = true ->
        print_enum_value (idx, v) = Ok line ->
        String.prefix (member_opening idx) line = true)
  /\ (forall arg_name (arg : GraphQLArgument) line,
        truthy (description arg) = true ->
        described_input_value (idx, (arg_name, arg)) = Ok line ->
        String.prefix (member_opening idx) line = true)
  /\ (idx = 0%nat -> member_opening idx = "  " +:+ quote3)
  /\ (idx <> 0%nat -> member_opening idx = nl +:+ "  " +:+ quote3).
Proof.
  split; [|split; [|split; [|apply member_opening_cases]]].
  - intros f_name f line Ht. unfold print_field.
    destruct (_print_description f "  " (Nat.eqb idx 0)) as [d|e] eqn:Hd; [|discriminate].
    destruct (_print_args f) as [a|e]; [|discriminate].
    destruct (_print_deprecated f) as [dep|e]; [|discriminate].
    cbn [bind]. intros [= <-].
    destruct (print_description_opening f _ _ d Ht Hd) as [text ->].
    unfold member_opening.
    generalize (block_prefix "  " (Nat.eqb idx 0) +:+ quote3). intros o.
    rewrite !app_str_assoc. apply str_prefix_app.
  - intros v line Ht. unfold print_enum_value.
    destruct (_print_description v "  " (Nat.eqb idx 0)) as [d|e] eqn:Hd; [|discriminate].
    destruct (_print_deprecated v) as [dep|e]; [|discriminate].
    cbn [bind]. intros [= <-].
    destruct (print_description_opening v _ _ d Ht Hd) as [text ->].
    unfold member_opening.
    generalize (block_prefix "  " (Nat.eqb idx 0) +:+ quote3). intros o.
    rewrite !app_str_assoc. apply str_prefix_app.
  - intros arg_name arg line Ht. unfold described_input_value.
    destruct (_print_description arg "  " (Nat.eqb idx 0)) as [d|e] eqn:Hd; [|discriminate].
    destruct (_print_input_value arg_name arg) as [v|e]; [|discriminate].
    cbn [bind]. intros [= <-].
    destruct (print_description_opening arg _ _ d Ht Hd) as [text ->].
    unfold member_opening.
    generalize (block_prefix "  " (Nat.eqb idx 0) +:+ quote3). intros o.
    rewrite !app_str_assoc. apply str_prefix_app.
Qed.

End Members.

Lemma described_members_open_witness :
  String.prefix (nl +:+ "  " +:+ quote3)
    (nl +:+ "  " +:+ quote3 +:+ "hi" +:+ quote3 +:+ nl +:+ "  RED") = true.
Proof.
  assert (Hline : print_enum_value (Ext := Sample.externals) (1%nat, Sample.red)
                  = Ok (nl +:+ "  " +:+ quote3 +:+ "hi" +:+ quote3 +:+ nl +:+ "  RED"))
    by reflexivity.
  exact (proj1 (proj2 (described_members_open (Ext := Sample.externals) 1))
           Sample.red _ eq_refl Hline).
Defined.
